(** * A multilevel feedback queue scheduler

    A shallow embedding of [src/Scheduler.js] and the verification of its
    dispatch loop, its interrupt routing and its queue topology.

    The scheduler owns one blocking queue and [PRIORITY_LEVELS] CPU queues.
    Its methods mutate the scheduler object and may raise a [TypeError]
    (a method call on [undefined]); they are embedded in a state and error
    monad over the [Scheduler] record. *)

From Stdlib Require Import ZArith Lia String List.
From stdpp Require Import base list strings.

(** ** Constants ([constants/index.js])

    The constants module is not part of the sources; [PRIORITY_LEVELS] is a
    parameter of the development, and the two vocabularies are fixed here. *)

(** Modelled from the spec: [QueueType] of the absent [constants/index.js],
    the role tag distinguishing a blocking queue from a CPU queue. *)
Inductive QueueType : Type := CPU_QUEUE | BLOCKING_QUEUE.

#[global] Instance QueueType_eq_dec : EqDecision QueueType.
Proof. solve_decision. Defined.

Module SchedulerInterrupt.
(** Modelled from the spec: the interrupt vocabulary of the absent
    [constants/index.js]; interrupts are dispatched as strings. *)
Definition PROCESS_BLOCKED : string := "PROCESS_BLOCKED".
(** Modelled from the spec: second word of the interrupt vocabulary. *)
Definition PROCESS_READY : string := "PROCESS_READY".
(** Modelled from the spec: third word of the interrupt vocabulary. *)
Definition LOWER_PRIORITY : string := "LOWER_PRIORITY".
End SchedulerInterrupt.

(** ** Queues ([Queue.js]) *)

Section Queue.
Context {Process : Type}.

(** Modelled from the spec: the [Queue] class of the absent [Queue.js]: an
    ordered sequence of processes, a quantum, a priority level and a role
    tag.  The back reference to the scheduler is the state the monad below
    threads. *)
Record Queue : Type := mkQueue {
  processes : list Process;
  quantum : Z;
  priorityLevel : Z;
  queueType : QueueType
}.

(** Modelled from the spec: [new Queue(scheduler, quantum, priorityLevel,
    queueType)] of the absent [Queue.js]; a queue starts with no process. *)
Definition Queue_new (quantum priorityLevel : Z) (queueType : QueueType) : Queue :=
  mkQueue [] quantum priorityLevel queueType.

(** Modelled from the spec: [Queue.enqueue] of the absent [Queue.js]: appends
    the process to the tail, always succeeds. *)
Definition Queue_enqueue (process : Process) (q : Queue) : Queue :=
  mkQueue (processes q ++ [process]) (quantum q) (priorityLevel q) (queueType q).

(** Modelled from the spec: [Queue.dequeue] of the absent [Queue.js]: removes
    and returns the head process, or signals the empty queue. *)
Definition Queue_dequeue (q : Queue) : option (Process * Queue) :=
  match processes q with
  | [] => None
  | p :: rest => Some (p, mkQueue rest (quantum q) (priorityLevel q) (queueType q))
  end.

(** Modelled from the spec: [Queue.isEmpty] of the absent [Queue.js]: whether
    the queue holds zero processes, without side effects. *)
Definition Queue_isEmpty (q : Queue) : bool :=
  match processes q with
  | [] => true
  | _ :: _ => false
  end.

(** Modelled from the spec: [Queue.getQueueType] of the absent [Queue.js], a
    pure accessor. *)
Definition Queue_getQueueType (q : Queue) : QueueType := queueType q.

(** Modelled from the spec: [Queue.getPriorityLevel] of the absent [Queue.js],
    a pure accessor. *)
Definition Queue_getPriorityLevel (q : Queue) : Z := priorityLevel q.

(** The part of a queue that is fixed at construction. *)
Definition Queue_shape (q : Queue) : Z * Z * QueueType :=
  (quantum q, priorityLevel q, queueType q).

End Queue.

Arguments Queue : clear implicits.

(** ** The scheduler ([Scheduler.js]) *)

(** One service call made by an iteration of [run]. *)
Inductive ServiceCall : Type :=
  | BlockingWork (workTime : Z)
  | CPUWork (index : nat) (workTime : Z).

(** Modelled from the spec: what the Process collaborator reports after it
    consumed CPU time (done / needs-block / still-needs-CPU); the process
    class is not part of the sources. *)
Inductive CPUOutcome : Type := Done | NeedsBlock | StillNeedsCPU.

(** The time a service call was given. *)
Definition ServiceCall_workTime (call : ServiceCall) : Z :=
  match call with
  | BlockingWork workTime => workTime
  | CPUWork _ workTime => workTime
  end.

(** The queue an interrupt is routed to: the blocking queue, the CPU queue at
    an index, or none. *)
Inductive Target : Type := ToBlocking | ToRunning (index : Z) | Ignored.

(** How a bounded unfolding of the [while (true)] loop of [run] ends. *)
Inductive LoopStatus : Type := Exited | OutOfFuel.

Section Model.
Context {Process : Type}.
Variable PRIORITY_LEVELS : nat.

Record Scheduler : Type := mkScheduler {
  clock : Z;
  blockingQueue : Queue Process;
  runningQueues : list (Queue Process)
}.

(** *** The monad of scheduler methods

    A method receives the scheduler object and either throws ([None]) or
    returns a value together with the mutated object. *)
Definition M (A : Type) : Type := Scheduler -> option (A * Scheduler).

Definition ret {A : Type} (a : A) : M A := fun s => Some (a, s).

Definition bind {A B : Type} (m : M A) (k : A -> M B) : M B :=
  fun s => match m s with
           | Some (a, s') => k a s'
           | None => None
           end.

Definition throw {A : Type} : M A := fun _ => None.

Definition gets {A : Type} (f : Scheduler -> A) : M A := fun s => Some (f s, s).

Definition modify (f : Scheduler -> Scheduler) : M unit := fun s => Some (tt, f s).

Notation "x <- m ;; k" := (bind m (fun x => k))
  (at level 100, m at next level, right associativity).
Notation "m ;;; k" := (bind m (fun _ => k))
  (at level 100, right associativity).

(** [arr[i]] for a JavaScript number [i]: [undefined] outside the array. *)
Definition array_get {A : Type} (arr : list A) (i : Z) : option A :=
  if (i <? 0)%Z then None else arr !! Z.to_nat i.

(** [this.clock = time] *)
Definition set_clock (time : Z) : M unit :=
  modify (fun s => mkScheduler time (blockingQueue s) (runningQueues s)).

(** [this.blockingQueue.enqueue(process)] *)
Definition blockingQueue_enqueue (process : Process) : M unit :=
  modify (fun s =>
    mkScheduler (clock s) (Queue_enqueue process (blockingQueue s)) (runningQueues s)).

(** [this.runningQueues[i].enqueue(process)]; a [TypeError] when
    [this.runningQueues[i]] is [undefined]. *)
Definition runningQueues_enqueue (i : Z) (process : Process) : M unit :=
  fun s =>
    match array_get (runningQueues s) i with
    | None => None
    | Some q =>
        Some (tt, mkScheduler (clock s) (blockingQueue s)
                    (<[Z.to_nat i := Queue_enqueue process q]> (runningQueues s)))
    end.

(** [const queue = this.runningQueues[i]] followed by a method call on it. *)
Definition runningQueues_at (i : Z) : M (Queue Process) :=
  fun s =>
    match array_get (runningQueues s) i with
    | None => None
    | Some q => Some (q, s)
    end.

(** *** The constructor *)

(** The [for] loop of the constructor, [n] iterations from index [i]: each
    assignment [this.runningQueues[i] = new Queue(...)] writes the slot just
    past the end of the array, which extends it by one element. *)
Fixpoint constructor_loop (n : nat) (i : Z) (queues : list (Queue Process))
  : list (Queue Process) :=
  match n with
  | O => queues
  | S n' =>
      constructor_loop n' (i + 1)%Z
        (queues ++ [Queue_new (10 + i * 20)%Z i CPU_QUEUE])
  end.

(** [new Scheduler()], where [now] is the value [Date.now()] returns. *)
Definition Scheduler_new (now : Z) : Scheduler :=
  mkScheduler now (Queue_new 50 0 BLOCKING_QUEUE)
    (constructor_loop PRIORITY_LEVELS 0 []).

(** *** [allEmpty], [addNewProcess], [handleInterrupt] *)

(** [this.runningQueues.every(queue => queue.isEmpty())] *)
Definition every_isEmpty : M bool :=
  gets (fun s => forallb Queue_isEmpty (runningQueues s)).

(** [allEmpty()]: the conjunction [&&] evaluates its right operand only when
    the left one is true. *)
Definition allEmpty : M bool :=
  b <- every_isEmpty ;;
  if b then gets (fun s => Queue_isEmpty (blockingQueue s)) else ret false.

(** [addNewProcess(process)] *)
Definition addNewProcess (process : Process) : M unit :=
  runningQueues_enqueue 0 process.

(** [handleInterrupt(queue, process, interrupt)]: the [switch] compares the
    interrupt with each case in turn and ends in an empty [default]; of the
    source queue only the accessors are read. *)
Definition handleInterrupt (queue : Queue Process) (process : Process)
    (interrupt : string) : M unit :=
  if decide (interrupt = SchedulerInterrupt.PROCESS_BLOCKED) then
    blockingQueue_enqueue process
  else if decide (interrupt = SchedulerInterrupt.PROCESS_READY) then
    addNewProcess process
  else if decide (interrupt = SchedulerInterrupt.LOWER_PRIORITY) then
    if decide (Queue_getQueueType queue = CPU_QUEUE) then
      let priorityLevel :=
        Z.min (Z.of_nat PRIORITY_LEVELS - 1) (Queue_getPriorityLevel queue + 1) in
      runningQueues_enqueue priorityLevel process
    else
      blockingQueue_enqueue process
  else
    ret tt.

(** *** [run]

    [Queue.doBlockingWork] and [Queue.doCPUWork] belong to the absent
    [Queue.js]; the loop is embedded over any pair of them.  They run on a
    queue that holds a reference to the scheduler, so they act on the whole
    scheduler object.  [Date.now()] is the sequence [now] of clock readings:
    the iteration numbered [n] reads [now n]. *)

Section Run.
Variable doBlockingWork : Z -> M unit.
Variable doCPUWork : nat -> Z -> M unit.
Variable now : nat -> Z.

(** The [for] loop over the running queues, [n] iterations from index [i];
    it returns the service call it made, if any. *)
Fixpoint scan_running (n : nat) (i : nat) (workTime : Z) : M (list ServiceCall) :=
  match n with
  | O => ret []
  | S n' =>
      queue <- runningQueues_at (Z.of_nat i) ;;
      if negb (Queue_isEmpty queue) then
        doCPUWork i workTime ;;;
        ret [CPUWork i workTime]
      else scan_running n' (S i) workTime
  end.

(** The body of the [while] loop up to the exit test, for a clock reading
    [time]; it returns the service calls made, in order. *)
Definition iteration (time : Z) : M (list ServiceCall) :=
  c <- gets clock ;;
  let workTime := (time - c)%Z in
  set_clock time ;;;
  blocking <- gets blockingQueue ;;
  calls1 <- (if negb (Queue_isEmpty blocking) then
               doBlockingWork workTime ;;; ret [BlockingWork workTime]
             else ret []) ;;
  calls2 <- scan_running PRIORITY_LEVELS 0 workTime ;;
  ret (calls1 ++ calls2).

(** [run()], unfolded at most [fuel] times, the first iteration being the one
    numbered [n]. *)
Fixpoint run (fuel : nat) (n : nat) : M LoopStatus :=
  match fuel with
  | O => ret OutOfFuel
  | S fuel' =>
      iteration (now n) ;;;
      empty <- allEmpty ;;
      if empty then ret Exited else run fuel' (S n)
  end.

(** The loop body repeated [k] times without the exit test: the scheduler
    after [k] iterations, the first one numbered [n]. *)
Fixpoint iterations (k : nat) (n : nat) : M unit :=
  match k with
  | O => ret tt
  | S k' => iteration (now n) ;;; iterations k' (S n)
  end.

End Run.

(** *** The work methods of [Queue.js], from their description

    The process collaborator is a type with two capabilities: consume up to
    a number of units of CPU time and report the outcome, and consume up to
    a number of units of blocking time and report whether the blocking phase
    completed. *)

Section QueueWork.
Variable executeCPU : Z -> Process -> Process * CPUOutcome.
Variable executeBlocking : Z -> Process -> Process * bool.

(** The queue at index [i] after a dequeue. *)
Definition set_runningQueue (i : nat) (q : Queue Process) : M unit :=
  modify (fun s =>
    mkScheduler (clock s) (blockingQueue s) (<[i := q]> (runningQueues s))).

(** The blocking queue after a dequeue. *)
Definition set_blockingQueue (q : Queue Process) : M unit :=
  modify (fun s => mkScheduler (clock s) q (runningQueues s)).

(** Modelled from the spec: [Queue.doCPUWork] of the absent [Queue.js], on the
    running queue at index [i]: dequeue the head process, grant it
    [min(quantum, workTime)], drop it when it completes, raise
    [PROCESS_BLOCKED] when it needs to block and [LOWER_PRIORITY] when its
    burst exceeds the granted time; with a zero [workTime] no progress is made
    and no interrupt fires. *)
Definition Queue_doCPUWork (i : nat) (workTime : Z) : M unit :=
  if (workTime =? 0)%Z then ret tt
  else
    queue <- runningQueues_at (Z.of_nat i) ;;
    match Queue_dequeue queue with
    | None => throw
    | Some (process, queue') =>
        set_runningQueue i queue' ;;;
        let '(process', outcome) :=
          executeCPU (Z.min (quantum queue) workTime) process in
        match outcome with
        | Done => ret tt
        | NeedsBlock =>
            handleInterrupt queue' process' SchedulerInterrupt.PROCESS_BLOCKED
        | StillNeedsCPU =>
            handleInterrupt queue' process' SchedulerInterrupt.LOWER_PRIORITY
        end
    end.

(** Modelled from the spec: [Queue.doBlockingWork] of the absent [Queue.js],
    on the blocking queue: dequeue the head process, advance its blocking
    phase by [workTime], raise [PROCESS_READY] when the phase completes and
    [LOWER_PRIORITY] with the blocking queue as source when it does not; with
    a zero [workTime] no progress is made and no interrupt fires. *)
Definition Queue_doBlockingWork (workTime : Z) : M unit :=
  if (workTime =? 0)%Z then ret tt
  else
    queue <- gets blockingQueue ;;
    match Queue_dequeue queue with
    | None => throw
    | Some (process, queue') =>
        set_blockingQueue queue' ;;;
        let '(process', completed) := executeBlocking workTime process in
        if completed then
          handleInterrupt queue' process' SchedulerInterrupt.PROCESS_READY
        else
          handleInterrupt queue' process' SchedulerInterrupt.LOWER_PRIORITY
    end.

End QueueWork.

(** *** Derived notions used by the statements *)

(** Every queue of the scheduler: the blocking queue, then the CPU queues by
    priority. *)
Definition all_queues (s : Scheduler) : list (Queue Process) :=
  blockingQueue s :: runningQueues s.

(** Whether every CPU queue and the blocking queue report empty. *)
Definition queues_empty (s : Scheduler) : bool :=
  forallb Queue_isEmpty (runningQueues s) && Queue_isEmpty (blockingQueue s).

(** No queue holds a process. *)
Definition no_process (s : Scheduler) : Prop :=
  processes (blockingQueue s) = [] /\
  forall i q, runningQueues s !! i = Some q -> processes q = [].

(** The queue topology: what is fixed at construction, queue by queue. *)
Definition Scheduler_shape (s : Scheduler) : list (Z * Z * QueueType) :=
  Queue_shape <$> all_queues s.

(** A method that leaves the observation [obs] of the scheduler as it was
    whenever it returns. *)
Definition preserves {A X : Type} (obs : Scheduler -> X) (m : M A) : Prop :=
  forall s a s', m s = Some (a, s') -> obs s' = obs s.

(** The topology the constructor builds: a blocking queue of quantum 50 and
    [PRIORITY_LEVELS] CPU queues, the one at index [i] of priority level [i]
    and quantum [10 + i * 20]. *)
Definition reference_topology (s : Scheduler) : Prop :=
  Queue_shape (blockingQueue s) = (50, 0, BLOCKING_QUEUE)%Z /\
  length (runningQueues s) = PRIORITY_LEVELS /\
  forall i q, runningQueues s !! i = Some q ->
    Queue_shape q = (10 + Z.of_nat i * 20, Z.of_nat i, CPU_QUEUE)%Z.

(** [addNewProcess] called on each process of a list, in order. *)
Fixpoint submit (ps : list Process) : M unit :=
  match ps with
  | [] => ret tt
  | p :: ps' => addNewProcess p ;;; submit ps'
  end.

(** The schedulers a program can observe: the one [new Scheduler()] returns
    at time [t0], and the one left by any method call that returns, whatever
    its arguments; for [run], by any unfolding of its loop. *)
Inductive reachable (doBlockingWork : Z -> M unit)
    (doCPUWork : nat -> Z -> M unit) (t0 : Z) : Scheduler -> Prop :=
  | reachable_new :
      reachable doBlockingWork doCPUWork t0 (Scheduler_new t0)
  | reachable_run s now fuel n status s' :
      reachable doBlockingWork doCPUWork t0 s ->
      run doBlockingWork doCPUWork now fuel n s = Some (status, s') ->
      reachable doBlockingWork doCPUWork t0 s'
  | reachable_addNewProcess s process s' :
      reachable doBlockingWork doCPUWork t0 s ->
      addNewProcess process s = Some (tt, s') ->
      reachable doBlockingWork doCPUWork t0 s'
  | reachable_handleInterrupt s queue process interrupt s' :
      reachable doBlockingWork doCPUWork t0 s ->
      handleInterrupt queue process interrupt s = Some (tt, s') ->
      reachable doBlockingWork doCPUWork t0 s'
  | reachable_allEmpty s b s' :
      reachable doBlockingWork doCPUWork t0 s ->
      allEmpty s = Some (b, s') ->
      reachable doBlockingWork doCPUWork t0 s'.

(** *** Remaining work

    [remaining p] is the total CPU plus blocking time the process [p] still
    requires. *)

Section Remaining.
Variable remaining : Process -> nat.

(** The time required by all the processes of all the queues together. *)
Definition total_remaining (s : Scheduler) : nat :=
  sum_list_with (fun q => sum_list_with remaining (processes q)) (all_queues s).

(** A variant of the loop: a process counts [2 * remaining + 1] in a CPU
    queue and one more in the blocking queue, so that a process without
    remaining time still counts, and counts less once it left the blocking
    queue. *)
Definition weight_cpu (q : Queue Process) : nat :=
  sum_list_with (fun p => 2 * remaining p + 1) (processes q).

Definition weight_blocking (q : Queue Process) : nat :=
  sum_list_with (fun p => 2 * remaining p + 2) (processes q).

Definition pending (s : Scheduler) : nat :=
  weight_blocking (blockingQueue s) + sum_list_with weight_cpu (runningQueues s).

Section Claim.
Variable doBlockingWork : Z -> M unit.
Variable doCPUWork : nat -> Z -> M unit.
Variable now : nat -> Z.

(** [run()] returns when called on [s]. *)
Definition terminates (s : Scheduler) : Prop :=
  exists fuel s', run doBlockingWork doCPUWork now fuel 0 s = Some (Exited, s').

(** The service calls of the iteration that reads [time] in the scheduler [s]
    strictly decrease the time the processes require (with a single process
    in the scheduler, the time that process requires). *)
Definition service_decreases (time : Z) (s : Scheduler) : Prop :=
  forall calls s',
    iteration doBlockingWork doCPUWork time s = Some (calls, s') ->
    calls <> [] -> total_remaining s' < total_remaining s.

(** The termination criterion as the specification words it: the loop
    terminates if and only if the required time strictly decreases on each
    service call of the run. *)
Definition terminates_iff_service_decreases (s : Scheduler) : Prop :=
  terminates s <->
  forall k sk,
    iterations doBlockingWork doCPUWork now k 0 s = Some (tt, sk) ->
    service_decreases (now k) sk.

End Claim.

End Remaining.

(** *** The accessors and the routing of interrupts *)

(** [_getCPUQueue(priorityLevel)]: the array element, [undefined] ([None])
    outside the array. *)
Definition _getCPUQueue (priorityLevel : Z) : M (option (Queue Process)) :=
  gets (fun s => array_get (runningQueues s) priorityLevel).

(** [_getBlockingQueue()] *)
Definition _getBlockingQueue : M (Queue Process) := gets blockingQueue.

(** The arm the [switch] of [handleInterrupt] takes, as the queue it selects. *)
Definition route (queue : Queue Process) (interrupt : string) : Target :=
  if decide (interrupt = SchedulerInterrupt.PROCESS_BLOCKED) then ToBlocking
  else if decide (interrupt = SchedulerInterrupt.PROCESS_READY) then ToRunning 0
  else if decide (interrupt = SchedulerInterrupt.LOWER_PRIORITY) then
    if decide (Queue_getQueueType queue = CPU_QUEUE) then
      ToRunning
        (Z.min (Z.of_nat PRIORITY_LEVELS - 1) (Queue_getPriorityLevel queue + 1))
    else ToBlocking
  else Ignored.

(** The [enqueue] call on the selected queue. *)
Definition deliver (target : Target) (process : Process) : M unit :=
  match target with
  | ToBlocking => blockingQueue_enqueue process
  | ToRunning i => runningQueues_enqueue i process
  | Ignored => ret tt
  end.

End Model.

Arguments Scheduler : clear implicits.
Arguments M : clear implicits.

(** ** A sample process and configuration

    Jobs with a CPU burst followed by a blocking phase, and the reference
    configuration of three priority levels.  They instantiate the process
    capabilities and exercise the statements below on concrete inputs. *)

Record Job : Type := mkJob { cpuTime : Z; blockingTime : Z }.

(** Consume up to [n] units of the CPU burst.  A job without CPU burst left
    is done; a job whose burst ends within [n] blocks if it has a blocking
    phase and is done otherwise. *)
Definition Job_executeCPU (n : Z) (j : Job) : Job * CPUOutcome :=
  if (cpuTime j <=? 0)%Z then (j, Done)
  else if (cpuTime j <=? n)%Z then
    (mkJob 0 (blockingTime j),
     if (0 <? blockingTime j)%Z then NeedsBlock else Done)
  else (mkJob (cpuTime j - n) (blockingTime j), StillNeedsCPU).

(** Consume up to [n] units of the blocking phase and report whether it
    completed. *)
Definition Job_executeBlocking (n : Z) (j : Job) : Job * bool :=
  if (blockingTime j <=? n)%Z then (mkJob (cpuTime j) 0, true)
  else (mkJob (cpuTime j) (blockingTime j - n), false).

(** Total required CPU plus blocking time of a job. *)
Definition Job_remaining (j : Job) : nat :=
  Z.to_nat (cpuTime j) + Z.to_nat (blockingTime j).

(** A scheduler of three priority levels constructed at time 0. *)
Definition sample_scheduler : Scheduler Job := Scheduler_new 3 0.

(** The scheduler after a job of CPU burst 25 was submitted. *)
Definition sample_loaded : Scheduler Job :=
  mkScheduler 0 (Queue_new 50 0 BLOCKING_QUEUE)
    [ Queue_enqueue (mkJob 25 0) (Queue_new 10 0 CPU_QUEUE);
      Queue_new 30 1 CPU_QUEUE;
      Queue_new 50 2 CPU_QUEUE ].

(** The scheduler one tick of 10 later: the job ran 10 of its 25 units at
    level 0 and was demoted to level 1. *)
Definition sample_demoted : Scheduler Job :=
  mkScheduler 10 (Queue_new 50 0 BLOCKING_QUEUE)
    [ Queue_new 10 0 CPU_QUEUE;
      Queue_enqueue (mkJob 15 0) (Queue_new 30 1 CPU_QUEUE);
      Queue_new 50 2 CPU_QUEUE ].

(** A scheduler with a job blocking for 20 more units, an empty level 0 and a
    job of CPU burst 15 waiting at level 1. *)
Definition sample_blocked : Scheduler Job :=
  mkScheduler 0 (Queue_enqueue (mkJob 0 20) (Queue_new 50 0 BLOCKING_QUEUE))
    [ Queue_new 10 0 CPU_QUEUE;
      Queue_enqueue (mkJob 15 0) (Queue_new 30 1 CPU_QUEUE);
      Queue_new 50 2 CPU_QUEUE ].

(** The scheduler a tick of 30 later: the blocking phase completed, the job
    re-entered level 0 and was served there; level 1 was not served. *)
Definition sample_unblocked : Scheduler Job :=
  mkScheduler 30 (Queue_new 50 0 BLOCKING_QUEUE)
    [ Queue_new 10 0 CPU_QUEUE;
      Queue_enqueue (mkJob 15 0) (Queue_new 30 1 CPU_QUEUE);
      Queue_new 50 2 CPU_QUEUE ].

(** The scheduler once the demoted job ran its last 15 units at level 1, a
    tick of 30 after [sample_demoted]. *)
Definition sample_done : Scheduler Job :=
  mkScheduler 40 (Queue_new 50 0 BLOCKING_QUEUE)
    [ Queue_new 10 0 CPU_QUEUE; Queue_new 30 1 CPU_QUEUE; Queue_new 50 2 CPU_QUEUE ].

(** The work methods of the queues of jobs, with three priority levels. *)
Definition Job_doBlockingWork : Z -> M Job unit :=
  Queue_doBlockingWork 3 Job_executeBlocking.

Definition Job_doCPUWork : nat -> Z -> M Job unit :=
  Queue_doCPUWork 3 Job_executeCPU.

(** Clock readings 10, 40, 70, ...: the first tick lasts 10, every later one
    30. *)
Definition sample_clock (n : nat) : Z := (10 + Z.of_nat n * 30)%Z.

(** Clock readings 0, 10, 40, 70, ...: the first reading falls in the
    millisecond of the construction. *)
Definition stalled_clock (n : nat) : Z :=
  match n with
  | O => 0%Z
  | S n' => sample_clock n'
  end.

(** ** Properties *)

Section Properties.
Context {Process : Type}.
Variable PRIORITY_LEVELS : nat.

Implicit Types (s : Scheduler Process) (q queue : Queue Process).
Implicit Types (p process : Process) (interrupt : string).

(** *** Arrays and the monad *)

Lemma array_get_of_nat {A : Type} (arr : list A) (i : nat) :
  array_get arr (Z.of_nat i) = arr !! i.
Proof.
  unfold array_get.
  destruct (Z.ltb_spec (Z.of_nat i) 0) as [Hneg | _]; [lia |].
  by rewrite Nat2Z.id.
Qed.

Lemma array_get_nonneg {A : Type} (arr : list A) (i : Z) :
  (0 <= i)%Z -> array_get arr i = arr !! Z.to_nat i.
Proof.
  intros Hi. unfold array_get.
  destruct (Z.ltb_spec i 0) as [Hneg | _]; [lia | reflexivity].
Qed.

Lemma runningQueues_enqueue_some s (i : Z) p q :
  (0 <= i)%Z ->
  runningQueues s !! Z.to_nat i = Some q ->
  runningQueues_enqueue i p s =
    Some (tt, mkScheduler (clock s) (blockingQueue s)
                (<[Z.to_nat i := Queue_enqueue p q]> (runningQueues s))).
Proof.
  intros Hi Hq. unfold runningQueues_enqueue.
  by rewrite (array_get_nonneg _ _ Hi), Hq.
Qed.

(** *** The routing table of [handleInterrupt] *)

Lemma handleInterrupt_blocked queue p :
  handleInterrupt PRIORITY_LEVELS queue p SchedulerInterrupt.PROCESS_BLOCKED =
  blockingQueue_enqueue p.
Proof. reflexivity. Qed.

Lemma handleInterrupt_ready queue p :
  handleInterrupt PRIORITY_LEVELS queue p SchedulerInterrupt.PROCESS_READY =
  addNewProcess p.
Proof. reflexivity. Qed.

Lemma handleInterrupt_lower_cpu queue p :
  queueType queue = CPU_QUEUE ->
  handleInterrupt PRIORITY_LEVELS queue p SchedulerInterrupt.LOWER_PRIORITY =
  runningQueues_enqueue
    (Z.min (Z.of_nat PRIORITY_LEVELS - 1) (priorityLevel queue + 1)) p.
Proof.
  intros Hcpu. unfold handleInterrupt, Queue_getQueueType, Queue_getPriorityLevel.
  rewrite Hcpu. reflexivity.
Qed.

Lemma handleInterrupt_lower_blocking queue p :
  queueType queue = BLOCKING_QUEUE ->
  handleInterrupt PRIORITY_LEVELS queue p SchedulerInterrupt.LOWER_PRIORITY =
  blockingQueue_enqueue p.
Proof.
  intros Hb. unfold handleInterrupt, Queue_getQueueType.
  rewrite Hb. reflexivity.
Qed.

Lemma handleInterrupt_unknown queue p interrupt :
  interrupt <> SchedulerInterrupt.PROCESS_BLOCKED ->
  interrupt <> SchedulerInterrupt.PROCESS_READY ->
  interrupt <> SchedulerInterrupt.LOWER_PRIORITY ->
  handleInterrupt PRIORITY_LEVELS queue p interrupt = ret tt.
Proof.
  intros H1 H2 H3. unfold handleInterrupt.
  repeat case_decide; congruence.
Qed.

(** *** Queues *)

Lemma Queue_isEmpty_true q : Queue_isEmpty q = true <-> processes q = [].
Proof. unfold Queue_isEmpty. destruct (processes q); split; congruence. Qed.

Lemma Queue_isEmpty_false q : Queue_isEmpty q = false <-> processes q <> [].
Proof. unfold Queue_isEmpty. destruct (processes q); split; congruence. Qed.

Lemma Queue_shape_enqueue p q : Queue_shape (Queue_enqueue p q) = Queue_shape q.
Proof. reflexivity. Qed.

Lemma Queue_dequeue_some q p q' :
  Queue_dequeue q = Some (p, q') ->
  processes q = p :: processes q' /\ Queue_shape q' = Queue_shape q.
Proof.
  unfold Queue_dequeue. destruct (processes q) as [| p0 rest] eqn:E; [discriminate |].
  intros [= <- <-]. split; reflexivity.
Qed.

Lemma first_running_queue s :
  0 < PRIORITY_LEVELS -> length (runningQueues s) = PRIORITY_LEVELS ->
  exists q0, runningQueues s !! 0 = Some q0.
Proof.
  intros Hpos Hlen. destruct (runningQueues s) as [| q0 rest]; simpl in *; [lia |].
  by exists q0.
Qed.

(** *** [addNewProcess] and [handleInterrupt] *)

(** C5: [addNewProcess(p)] appends [p] to the tail of the CPU queue at
    priority level 0; the clock, the blocking queue and every CPU queue at a
    level from 1 on are unchanged. *)
Theorem addNewProcess_level0 s p :
  0 < PRIORITY_LEVELS -> length (runningQueues s) = PRIORITY_LEVELS ->
  exists q0 s',
    runningQueues s !! 0 = Some q0 /\
    addNewProcess p s = Some (tt, s') /\
    runningQueues s' !! 0 = Some (Queue_enqueue p q0) /\
    processes (Queue_enqueue p q0) = processes q0 ++ [p] /\
    blockingQueue s' = blockingQueue s /\
    clock s' = clock s /\
    length (runningQueues s') = length (runningQueues s) /\
    forall i, 1 <= i -> runningQueues s' !! i = runningQueues s !! i.
Proof.
  intros Hpos Hlen. destruct (first_running_queue s Hpos Hlen) as [q0 Hq0].
  exists q0. eexists. split; [exact Hq0 |]. split.
  - unfold addNewProcess. by apply (runningQueues_enqueue_some s 0 p q0).
  - simpl. repeat split.
    + apply list_lookup_insert_eq. apply lookup_lt_Some in Hq0. exact Hq0.
    + apply length_insert.
    + intros i Hi. apply list_lookup_insert_ne. lia.
Qed.

(** C6: [handleInterrupt(q, p, PROCESS_BLOCKED)] enqueues [p] into the
    blocking queue, whatever the source queue [q] is; nothing else changes. *)
Theorem handleInterrupt_process_blocked s queue p :
  handleInterrupt PRIORITY_LEVELS queue p SchedulerInterrupt.PROCESS_BLOCKED s =
  Some (tt, mkScheduler (clock s) (Queue_enqueue p (blockingQueue s))
              (runningQueues s)).
Proof. rewrite handleInterrupt_blocked. reflexivity. Qed.

(** C3: [handleInterrupt(q, p, PROCESS_READY)] enqueues [p] into the CPU queue
    at priority level 0, whatever the source queue [q] is; the interrupt
    carries no trace of the level [p] had before it blocked. *)
Theorem handleInterrupt_process_ready s queue p :
  0 < PRIORITY_LEVELS -> length (runningQueues s) = PRIORITY_LEVELS ->
  exists q0,
    runningQueues s !! 0 = Some q0 /\
    handleInterrupt PRIORITY_LEVELS queue p SchedulerInterrupt.PROCESS_READY s =
    Some (tt, mkScheduler (clock s) (blockingQueue s)
                (<[0 := Queue_enqueue p q0]> (runningQueues s))).
Proof.
  intros Hpos Hlen. destruct (first_running_queue s Hpos Hlen) as [q0 Hq0].
  exists q0. split; [exact Hq0 |].
  rewrite handleInterrupt_ready. unfold addNewProcess.
  by apply (runningQueues_enqueue_some s 0 p q0).
Qed.

(** The level a [LOWER_PRIORITY] interrupt from a CPU queue of level [L]
    routes to. *)
Lemma demotion_target_in_range (L : Z) :
  0 < PRIORITY_LEVELS -> (0 <= L)%Z ->
  (0 <= Z.min (Z.of_nat PRIORITY_LEVELS - 1) (L + 1))%Z /\
  Z.to_nat (Z.min (Z.of_nat PRIORITY_LEVELS - 1) (L + 1)) < PRIORITY_LEVELS.
Proof. intros Hpos HL. lia. Qed.

(** C2: on [LOWER_PRIORITY], a process coming from a CPU queue of level [L] is
    enqueued into the CPU queue at level [min(PRIORITY_LEVELS - 1, L + 1)],
    which is never a level of higher priority than [L] and is the lowest
    level when [L] is; a process coming from the blocking queue is enqueued
    back into the blocking queue. *)
Theorem handleInterrupt_lower_priority s queue p :
  0 < PRIORITY_LEVELS -> length (runningQueues s) = PRIORITY_LEVELS ->
  (0 <= priorityLevel queue)%Z ->
  let L := priorityLevel queue in
  let target := Z.min (Z.of_nat PRIORITY_LEVELS - 1) (L + 1) in
  (queueType queue = CPU_QUEUE ->
     exists qt,
       runningQueues s !! Z.to_nat target = Some qt /\
       handleInterrupt PRIORITY_LEVELS queue p SchedulerInterrupt.LOWER_PRIORITY s =
       Some (tt, mkScheduler (clock s) (blockingQueue s)
                   (<[Z.to_nat target := Queue_enqueue p qt]> (runningQueues s))) /\
       (0 <= target <= Z.of_nat PRIORITY_LEVELS - 1)%Z /\
       ((L <= Z.of_nat PRIORITY_LEVELS - 1)%Z -> (L <= target)%Z) /\
       (L = (Z.of_nat PRIORITY_LEVELS - 1)%Z -> target = L)) /\
  (queueType queue = BLOCKING_QUEUE ->
     handleInterrupt PRIORITY_LEVELS queue p SchedulerInterrupt.LOWER_PRIORITY s =
     Some (tt, mkScheduler (clock s) (Queue_enqueue p (blockingQueue s))
                 (runningQueues s))).
Proof.
  intros Hpos Hlen HL L target. split.
  - intros Hcpu.
    destruct (demotion_target_in_range L Hpos HL) as [Hnonneg Hlt].
    fold target in Hnonneg, Hlt.
    destruct (lookup_lt_is_Some_2 (runningQueues s) (Z.to_nat target)) as [qt Hqt];
      [lia |].
    exists qt. split; [exact Hqt |]. split.
    + rewrite (handleInterrupt_lower_cpu _ _ Hcpu).
      by apply runningQueues_enqueue_some.
    + subst target. lia.
  - intros Hblocking. by rewrite (handleInterrupt_lower_blocking _ _ Hblocking).
Qed.

(** C8: an interrupt that is none of [PROCESS_BLOCKED], [PROCESS_READY] and
    [LOWER_PRIORITY] is ignored: the call returns normally and the scheduler,
    its clock and all its queues, is the one it was. *)
Theorem handleInterrupt_unknown_noop s queue p interrupt :
  interrupt <> SchedulerInterrupt.PROCESS_BLOCKED ->
  interrupt <> SchedulerInterrupt.PROCESS_READY ->
  interrupt <> SchedulerInterrupt.LOWER_PRIORITY ->
  handleInterrupt PRIORITY_LEVELS queue p interrupt s = Some (tt, s).
Proof.
  intros H1 H2 H3. by rewrite handleInterrupt_unknown.
Qed.

(** C9: a recognized interrupt enqueues the process into exactly one queue:
    one queue [q], at a position [k] among the blocking queue and the CPU
    queues, becomes [q] with the process appended, every queue at another
    position is the queue it was, and the clock is unchanged.  A CPU queue
    that raises [LOWER_PRIORITY] has a priority level, a number from 0 on. *)
Theorem handleInterrupt_one_target s queue p interrupt :
  0 < PRIORITY_LEVELS -> length (runningQueues s) = PRIORITY_LEVELS ->
  (interrupt = SchedulerInterrupt.LOWER_PRIORITY ->
   queueType queue = CPU_QUEUE -> (0 <= priorityLevel queue)%Z) ->
  interrupt = SchedulerInterrupt.PROCESS_BLOCKED \/
  interrupt = SchedulerInterrupt.PROCESS_READY \/
  interrupt = SchedulerInterrupt.LOWER_PRIORITY ->
  exists s' k q,
    handleInterrupt PRIORITY_LEVELS queue p interrupt s = Some (tt, s') /\
    all_queues s !! k = Some q /\
    all_queues s' = <[k := Queue_enqueue p q]> (all_queues s) /\
    processes (Queue_enqueue p q) = processes q ++ [p] /\
    (forall j, j <> k -> all_queues s' !! j = all_queues s !! j) /\
    clock s' = clock s.
Proof.
  intros Hpos Hlen HL Hint.
  assert (Hblocking : exists s' k q,
    blockingQueue_enqueue p s = Some (tt, s') /\
    all_queues s !! k = Some q /\
    all_queues s' = <[k := Queue_enqueue p q]> (all_queues s) /\
    processes (Queue_enqueue p q) = processes q ++ [p] /\
    (forall j, j <> k -> all_queues s' !! j = all_queues s !! j) /\
    clock s' = clock s).
  { eexists. exists 0, (blockingQueue s). repeat split.
    intros [| j] Hj; [congruence | reflexivity]. }
  assert (Hrunning : forall i : Z, (0 <= i)%Z -> Z.to_nat i < PRIORITY_LEVELS ->
    exists s' k q,
    runningQueues_enqueue i p s = Some (tt, s') /\
    all_queues s !! k = Some q /\
    all_queues s' = <[k := Queue_enqueue p q]> (all_queues s) /\
    processes (Queue_enqueue p q) = processes q ++ [p] /\
    (forall j, j <> k -> all_queues s' !! j = all_queues s !! j) /\
    clock s' = clock s).
  { intros i Hi Hlt.
    destruct (lookup_lt_is_Some_2 (runningQueues s) (Z.to_nat i)) as [qt Hqt];
      [lia |].
    eexists. exists (S (Z.to_nat i)), qt. split.
    - by apply runningQueues_enqueue_some.
    - repeat split; try assumption.
      intros [| j] Hj; simpl; [reflexivity |].
      apply list_lookup_insert_ne. lia. }
  destruct Hint as [-> | [-> | ->]].
  - rewrite handleInterrupt_blocked. exact Hblocking.
  - rewrite handleInterrupt_ready. unfold addNewProcess.
    apply Hrunning; lia.
  - destruct (queueType queue) eqn:Htype.
    + rewrite (handleInterrupt_lower_cpu _ _ Htype).
      destruct (demotion_target_in_range (priorityLevel queue) Hpos
                  (HL eq_refl eq_refl)).
      by apply Hrunning.
    + rewrite (handleInterrupt_lower_blocking _ _ Htype). exact Hblocking.
Qed.

(** *** [allEmpty] *)

Lemma forallb_isEmpty (queues : list (Queue Process)) :
  forallb Queue_isEmpty queues = true <->
  forall i q, queues !! i = Some q -> processes q = [].
Proof.
  rewrite forallb_forall. split.
  - intros H i q Hq. apply Queue_isEmpty_true, H.
    apply list_elem_of_In. by apply list_elem_of_lookup_2 with i.
  - intros H q Hin. apply list_elem_of_In, list_elem_of_lookup in Hin as [i Hi].
    apply Queue_isEmpty_true. by apply H with i.
Qed.

Lemma allEmpty_value s : allEmpty s = Some (queues_empty s, s).
Proof.
  unfold allEmpty, bind, every_isEmpty, gets, ret, queues_empty.
  by destruct (forallb Queue_isEmpty (runningQueues s)).
Qed.

Lemma queues_empty_true s : queues_empty s = true <-> no_process s.
Proof.
  unfold queues_empty, no_process.
  rewrite andb_true_iff, forallb_isEmpty, Queue_isEmpty_true. tauto.
Qed.

Lemma queues_empty_false s : queues_empty s = false <-> ~ no_process s.
Proof.
  rewrite <- queues_empty_true. destruct (queues_empty s); split; congruence.
Qed.

(** C7: [allEmpty()] returns [true] exactly when the blocking queue and every
    CPU queue hold no process, and the scheduler after the call is the
    scheduler before it. *)
Theorem allEmpty_pure s :
  exists b,
    allEmpty s = Some (b, s) /\
    (b = true <-> no_process s) /\
    (b = true <->
       Queue_isEmpty (blockingQueue s) = true /\
       forall i q, runningQueues s !! i = Some q -> Queue_isEmpty q = true).
Proof.
  eexists. split; [apply allEmpty_value |].
  split; [apply queues_empty_true |].
  unfold queues_empty.
  rewrite andb_true_iff, forallb_isEmpty, Queue_isEmpty_true.
  split.
  - intros [Hr Hb]. split; [exact Hb |].
    intros i q Hq. apply Queue_isEmpty_true. by apply Hr with i.
  - intros [Hb Hr]. split; [| exact Hb].
    intros i q Hq. apply Queue_isEmpty_true. by apply Hr with i.
Qed.

(** *** Reasoning in the monad *)

Lemma bind_some {A B : Type} (m : M Process A) (k : A -> M Process B) s b s' :
  bind m k s = Some (b, s') <->
  exists a s1, m s = Some (a, s1) /\ k a s1 = Some (b, s').
Proof.
  unfold bind. destruct (m s) as [[a s1] |]; split.
  - intros H. by exists a, s1.
  - by intros (a' & s1' & [= <- <-] & H).
  - discriminate.
  - by intros (a' & s1' & [=] & _).
Qed.

Lemma bind_eq {A B : Type} (m : M Process A) (k : A -> M Process B) s a s1 :
  m s = Some (a, s1) -> bind m k s = k a s1.
Proof. intros H. unfold bind. by rewrite H. Qed.

(** Run the first method of a sequence, given the equation of its result. *)
Ltac bind_step H := rewrite (bind_eq _ _ _ _ _ H).

Lemma preserves_ret {A X : Type} (obs : Scheduler Process -> X) (a : A) :
  preserves obs (ret a).
Proof. by intros s a' s' [= _ <-]. Qed.

Lemma preserves_gets {A X : Type} (obs : Scheduler Process -> X)
    (f : Scheduler Process -> A) :
  preserves obs (gets f).
Proof. by intros s a' s' [= _ <-]. Qed.

Lemma preserves_throw {A X : Type} (obs : Scheduler Process -> X) :
  preserves obs (throw (A := A)).
Proof. intros s a s' [=]. Qed.

Lemma preserves_bind {A B X : Type} (obs : Scheduler Process -> X)
    (m : M Process A) (k : A -> M Process B) :
  preserves obs m -> (forall a, preserves obs (k a)) -> preserves obs (bind m k).
Proof.
  intros Hm Hk s b s' (a & s1 & H1 & H2)%bind_some.
  rewrite (Hk a _ _ _ H2). by apply Hm with a.
Qed.

(** *** The queue topology *)

Lemma shape_set_clock (time : Z) : preserves (Scheduler_shape (Process := Process)) (set_clock time).
Proof. by intros s a s' [= _ <-]. Qed.

Lemma shape_blockingQueue_enqueue p :
  preserves (Scheduler_shape (Process := Process)) (blockingQueue_enqueue p).
Proof. by intros s a s' [= _ <-]. Qed.

Lemma shape_insert_same (queues : list (Queue Process)) (k : nat) q q' :
  queues !! k = Some q -> Queue_shape q' = Queue_shape q ->
  Queue_shape <$> <[k := q']> queues = Queue_shape <$> queues.
Proof.
  intros Hq Hshape. rewrite list_fmap_insert, Hshape.
  apply list_insert_id. by rewrite list_lookup_fmap, Hq.
Qed.

Lemma shape_runningQueues_enqueue (i : Z) p :
  preserves (Scheduler_shape (Process := Process)) (runningQueues_enqueue i p).
Proof.
  intros s a s'. unfold runningQueues_enqueue, array_get.
  destruct (i <? 0)%Z; [discriminate |].
  destruct (runningQueues s !! Z.to_nat i) as [q |] eqn:Hq; [| discriminate].
  intros [= _ <-]. unfold Scheduler_shape, all_queues. simpl.
  f_equal. by apply shape_insert_same with q.
Qed.

Lemma shape_addNewProcess p :
  preserves (Scheduler_shape (Process := Process)) (addNewProcess p).
Proof. apply shape_runningQueues_enqueue. Qed.

Lemma shape_handleInterrupt queue p interrupt :
  preserves (Scheduler_shape (Process := Process))
    (handleInterrupt PRIORITY_LEVELS queue p interrupt).
Proof.
  unfold handleInterrupt. repeat case_decide;
    auto using shape_blockingQueue_enqueue, shape_addNewProcess,
      shape_runningQueues_enqueue, preserves_ret.
Qed.

Lemma shape_allEmpty : preserves (Scheduler_shape (Process := Process)) allEmpty.
Proof. intros s b s'. rewrite allEmpty_value. by intros [= _ <-]. Qed.

Lemma shape_runningQueues_at (i : Z) :
  preserves (Scheduler_shape (Process := Process)) (runningQueues_at i).
Proof.
  intros s q s'. unfold runningQueues_at.
  destruct (array_get (runningQueues s) i); [| discriminate]. by intros [= _ <-].
Qed.

Lemma constructor_loop_length (n : nat) (i : Z) (queues : list (Queue Process)) :
  length (constructor_loop n i queues) = length queues + n.
Proof.
  revert i queues. induction n as [| n IH]; intros i queues; simpl; [lia |].
  rewrite IH, length_app. simpl. lia.
Qed.

Lemma constructor_loop_lookup (n : nat) (i : Z) (queues : list (Queue Process))
    (k : nat) q :
  constructor_loop n i queues !! k = Some q ->
  queues !! k = Some q \/
  (length queues <= k /\
   q = Queue_new (10 + (i + Z.of_nat (k - length queues)) * 20)%Z
         (i + Z.of_nat (k - length queues))%Z CPU_QUEUE).
Proof.
  revert i queues. induction n as [| n IH]; intros i queues; simpl.
  - by left.
  - intros [Hin | [Hlen ->]]%IH.
    + destruct (decide (k < length queues)) as [Hlt | Hge].
      * left. by rewrite lookup_app_l in Hin.
      * right. split; [lia |].
        rewrite lookup_app_r in Hin by lia.
        destruct (k - length queues) as [| d] eqn:Hd; simpl in Hin; [| by destruct d].
        injection Hin as <-. f_equal; lia.
    + right. rewrite length_app in *. simpl in *. split; [lia |].
      f_equal; lia.
Qed.

Lemma reference_topology_new (t0 : Z) :
  reference_topology PRIORITY_LEVELS (Scheduler_new (Process := Process) PRIORITY_LEVELS t0).
Proof.
  split; [reflexivity |]. unfold Scheduler_new. simpl. split.
  - apply constructor_loop_length.
  - intros i q [Hnil | [_ ->]]%constructor_loop_lookup; [done |].
    simpl. unfold Queue_new, Queue_shape. simpl.
    rewrite Nat.sub_0_r, Z.add_0_l. reflexivity.
Qed.

Lemma cons_eq_inv {A : Type} (x y : A) (l l' : list A) :
  x :: l = y :: l' -> x = y /\ l = l'.
Proof. intros [= -> ->]. by split. Qed.

Lemma reference_topology_shape s s' :
  Scheduler_shape s' = Scheduler_shape s ->
  reference_topology PRIORITY_LEVELS s -> reference_topology PRIORITY_LEVELS s'.
Proof.
  unfold Scheduler_shape, all_queues. rewrite !fmap_cons.
  intros [Hb Hr]%cons_eq_inv (Hblocking & Hlen & Hrunning).
  split; [congruence |]. split.
  - rewrite <- Hlen. rewrite <- (length_fmap Queue_shape (runningQueues s')), Hr.
    apply length_fmap.
  - intros i q' Hq'.
    assert (Hi : (Queue_shape <$> runningQueues s) !! i = Some (Queue_shape q')).
    { by rewrite <- Hr, list_lookup_fmap, Hq'. }
    rewrite list_lookup_fmap in Hi.
    destruct (runningQueues s !! i) as [q |] eqn:Hq; [| discriminate].
    apply (inj Some) in Hi. rewrite <- Hi. by apply Hrunning.
Qed.

Section Topology.
Variable doBlockingWork : Z -> M Process unit.
Variable doCPUWork : nat -> Z -> M Process unit.
Hypothesis doBlockingWork_shape :
  forall workTime, preserves Scheduler_shape (doBlockingWork workTime).
Hypothesis doCPUWork_shape :
  forall i workTime, preserves Scheduler_shape (doCPUWork i workTime).

Lemma shape_scan_running (n i : nat) (workTime : Z) :
  preserves Scheduler_shape (scan_running doCPUWork n i workTime).
Proof.
  revert i. induction n as [| n IH]; intros i; simpl.
  - apply preserves_ret.
  - apply preserves_bind; [apply shape_runningQueues_at |].
    intros queue. destruct (negb (Queue_isEmpty queue)); [| apply IH].
    apply preserves_bind; [apply doCPUWork_shape |].
    intros _. apply preserves_ret.
Qed.

Lemma shape_iteration (time : Z) :
  preserves Scheduler_shape
    (iteration PRIORITY_LEVELS doBlockingWork doCPUWork time).
Proof.
  unfold iteration.
  apply preserves_bind; [apply preserves_gets |]. intros c.
  apply preserves_bind; [apply shape_set_clock |]. intros _.
  apply preserves_bind; [apply preserves_gets |]. intros blocking.
  apply preserves_bind.
  - destruct (negb (Queue_isEmpty blocking)); [| apply preserves_ret].
    apply preserves_bind; [apply doBlockingWork_shape |].
    intros _. apply preserves_ret.
  - intros calls1. apply preserves_bind; [apply shape_scan_running |].
    intros calls2. apply preserves_ret.
Qed.

Lemma shape_run (now : nat -> Z) (fuel n : nat) :
  preserves Scheduler_shape
    (run PRIORITY_LEVELS doBlockingWork doCPUWork now fuel n).
Proof.
  revert n. induction fuel as [| fuel IH]; intros n; simpl.
  - apply preserves_ret.
  - apply preserves_bind; [apply shape_iteration |]. intros _.
    apply preserves_bind; [apply shape_allEmpty |].
    intros [|]; [apply preserves_ret | apply IH].
Qed.

Lemma reachable_shape (t0 : Z) s :
  reachable PRIORITY_LEVELS doBlockingWork doCPUWork t0 s ->
  Scheduler_shape s =
  Scheduler_shape (Scheduler_new (Process := Process) PRIORITY_LEVELS t0).
Proof.
  induction 1 as [| s now fuel n status s' _ IH Hrun | s p s' _ IH Hadd
                 | s queue p interrupt s' _ IH Hint | s b s' _ IH Hempty].
  - reflexivity.
  - rewrite <- IH. by apply shape_run in Hrun.
  - rewrite <- IH. by apply shape_addNewProcess in Hadd.
  - rewrite <- IH. by apply shape_handleInterrupt in Hint.
  - rewrite <- IH. by apply shape_allEmpty in Hempty.
Qed.

(** C10: the constructor builds exactly [PRIORITY_LEVELS] CPU queues, the one
    at index [i] of priority level [i] and quantum [10 + i * 20], so that the
    quantum strictly increases with the index, and a blocking queue of
    quantum 50; every scheduler reached from it by [run], [addNewProcess],
    [handleInterrupt] and [allEmpty] has that same topology, provided the
    work methods of the queues leave the topology as it is. *)
Theorem topology_fixed (t0 : Z) s :
  reachable PRIORITY_LEVELS doBlockingWork doCPUWork t0 s ->
  reference_topology PRIORITY_LEVELS (Scheduler_new (Process := Process) PRIORITY_LEVELS t0) /\
  reference_topology PRIORITY_LEVELS s /\
  Scheduler_shape s =
  Scheduler_shape (Scheduler_new (Process := Process) PRIORITY_LEVELS t0) /\
  (forall i j qi qj, i < j ->
     runningQueues s !! i = Some qi -> runningQueues s !! j = Some qj ->
     (quantum qi < quantum qj)%Z).
Proof.
  intros Hreach. pose proof (reachable_shape t0 s Hreach) as Hshape.
  pose proof (reference_topology_new t0) as Hnew.
  pose proof (reference_topology_shape _ _ Hshape Hnew) as Htopo.
  repeat split; try apply Hnew; try apply Htopo; try assumption.
  intros i j qi qj Hij Hqi Hqj.
  destruct Htopo as (_ & _ & Hrunning).
  apply Hrunning in Hqi, Hqj. unfold Queue_shape in *.
  injection Hqi as -> _ _. injection Hqj as -> _ _. lia.
Qed.

End Topology.

(** *** One iteration of [run] *)

Section Dispatch.
Variable doBlockingWork : Z -> M Process unit.
Variable doCPUWork : nat -> Z -> M Process unit.

Lemma runningQueues_at_some (i : nat) s q s' :
  runningQueues_at (Z.of_nat i) s = Some (q, s') <->
  runningQueues s !! i = Some q /\ s' = s.
Proof.
  unfold runningQueues_at. rewrite array_get_of_nat.
  destruct (runningQueues s !! i) as [q0 |]; split.
  - by intros [= -> ->].
  - by intros [[= ->] ->].
  - discriminate.
  - by intros [[=] _].
Qed.

(** The scan of [n] queues from index [i] either finds them all empty and
    calls nothing, or calls [doCPUWork] once, on the first non-empty one. *)
Lemma scan_running_spec (n i : nat) (workTime : Z) s calls s' :
  scan_running doCPUWork n i workTime s = Some (calls, s') ->
  (calls = [] /\ s' = s /\
   forall j q, i <= j < i + n -> runningQueues s !! j = Some q ->
     Queue_isEmpty q = true) \/
  (exists k q,
     calls = [CPUWork k workTime] /\ i <= k < i + n /\
     runningQueues s !! k = Some q /\ Queue_isEmpty q = false /\
     (forall j qj, i <= j < k -> runningQueues s !! j = Some qj ->
        Queue_isEmpty qj = true) /\
     doCPUWork k workTime s = Some (tt, s')).
Proof.
  revert i s. induction n as [| n IH]; intros i s; simpl.
  - intros [= <- <-]. left. repeat split. intros j q Hj. lia.
  - intros (queue & s1 & [Hq ->]%runningQueues_at_some & Hrest)%bind_some.
    destruct (Queue_isEmpty queue) eqn:Hempty; simpl in Hrest.
    + apply IH in Hrest as [(-> & -> & Hall) | (k & q & -> & Hk & Hqk & Hne & Hbefore & Hwork)].
      * left. repeat split. intros j q Hj Hqj.
        destruct (decide (j = i)) as [-> | Hji]; [congruence |].
        apply Hall with j; [lia | done].
      * right. exists k, q. repeat split; try done; try lia.
        intros j qj Hj Hqj.
        destruct (decide (j = i)) as [-> | Hji]; [congruence |].
        apply Hbefore with j; [lia | done].
    + apply bind_some in Hrest as ([] & s2 & Hwork & [= <- <-]).
      right. exists i, queue. repeat split; try done; try lia.
Qed.

(** C1: an iteration of [run] first calls [doBlockingWork] on the blocking
    queue if and only if that queue is not empty, and then calls [doCPUWork]
    on at most one CPU queue: the non-empty queue of lowest index at the
    time of the scan, every queue before it being empty and no queue after
    it being called; both calls receive the same [workTime], the clock
    reading minus the clock of the scheduler. *)
Theorem iteration_service_order (time : Z) s calls s' :
  iteration PRIORITY_LEVELS doBlockingWork doCPUWork time s = Some (calls, s') ->
  let workTime := (time - clock s)%Z in
  let s0 := mkScheduler time (blockingQueue s) (runningQueues s) in
  exists s1 calls1 calls2,
    calls = calls1 ++ calls2 /\
    (Queue_isEmpty (blockingQueue s) = false ->
       calls1 = [BlockingWork workTime] /\
       doBlockingWork workTime s0 = Some (tt, s1)) /\
    (Queue_isEmpty (blockingQueue s) = true -> calls1 = [] /\ s1 = s0) /\
    ((calls2 = [] /\ s' = s1 /\
      forall j q, j < PRIORITY_LEVELS -> runningQueues s1 !! j = Some q ->
        Queue_isEmpty q = true) \/
     (exists k q,
        calls2 = [CPUWork k workTime] /\ k < PRIORITY_LEVELS /\
        runningQueues s1 !! k = Some q /\ Queue_isEmpty q = false /\
        (forall j qj, j < k -> runningQueues s1 !! j = Some qj ->
           Queue_isEmpty qj = true) /\
        doCPUWork k workTime s1 = Some (tt, s'))).
Proof.
  intros Hiter workTime s0. unfold iteration in Hiter.
  apply bind_some in Hiter as (c & sa & [= <- <-] & Hiter).
  apply bind_some in Hiter as ([] & sb & [= <-] & Hiter).
  apply bind_some in Hiter as (blocking & sc & [= <- <-] & Hiter).
  apply bind_some in Hiter as (calls1 & s1 & Hblocking & Hiter).
  apply bind_some in Hiter as (calls2 & s2 & Hscan & [= <- <-]).
  simpl in Hblocking. fold workTime in Hblocking, Hscan. fold s0 in Hblocking.
  exists s1, calls1, calls2. split; [reflexivity |].
  destruct (Queue_isEmpty (blockingQueue s)) eqn:Hempty; simpl in Hblocking.
  - injection Hblocking as <- <-. split; [discriminate |]. split; [done |].
    apply scan_running_spec in Hscan
      as [(-> & -> & Hall) | (k & q & -> & Hk & Hqk & Hne & Hbefore & Hwork)].
    + left. repeat split. intros j q Hj. apply Hall. lia.
    + right. exists k, q. repeat split; try done; try lia.
      intros j qj Hj. apply Hbefore. lia.
  - apply bind_some in Hblocking as ([] & sd & Hwork1 & [= <- <-]).
    split; [done |]. split; [discriminate |].
    apply scan_running_spec in Hscan
      as [(-> & -> & Hall) | (k & q & -> & Hk & Hqk & Hne & Hbefore & Hwork)].
    + left. repeat split. intros j q Hj. apply Hall. lia.
    + right. exists k, q. repeat split; try done; try lia.
      intros j qj Hj. apply Hbefore. lia.
Qed.

End Dispatch.

(** *** The loop of [run] *)

Section Loop.
Variable doBlockingWork : Z -> M Process unit.
Variable doCPUWork : nat -> Z -> M Process unit.
Variable now : nat -> Z.

Local Abbreviation run_loop := (run PRIORITY_LEVELS doBlockingWork doCPUWork now).
Local Abbreviation body := (iteration PRIORITY_LEVELS doBlockingWork doCPUWork).
Local Abbreviation repeated :=
  (iterations PRIORITY_LEVELS doBlockingWork doCPUWork now).

Lemma run_step (fuel n : nat) s calls s1 :
  body (now n) s = Some (calls, s1) ->
  run_loop (S fuel) n s =
  if queues_empty s1 then Some (Exited, s1) else run_loop fuel (S n) s1.
Proof.
  intros Hbody. simpl. bind_step Hbody.
  bind_step (allEmpty_value s1).
  by destruct (queues_empty s1).
Qed.

Lemma run_step_throw (fuel n : nat) s :
  body (now n) s = None -> run_loop (S fuel) n s = None.
Proof. intros Hbody. simpl. unfold bind at 1. by rewrite Hbody. Qed.

Lemma iterations_step (k n : nat) s calls s1 :
  body (now n) s = Some (calls, s1) ->
  repeated (S k) n s = repeated k (S n) s1.
Proof. intros Hbody. simpl. by bind_step Hbody. Qed.

Lemma iterations_step_throw (k n : nat) s :
  body (now n) s = None -> repeated (S k) n s = None.
Proof. intros Hbody. simpl. unfold bind at 1. by rewrite Hbody. Qed.

(** The loop exits at the end of the first iteration that leaves every queue
    empty, and only there. *)
Lemma run_exited_iff (fuel n : nat) s s' :
  run_loop fuel n s = Some (Exited, s') <->
  exists k,
    1 <= k <= fuel /\
    repeated k n s = Some (tt, s') /\
    queues_empty s' = true /\
    forall j, 1 <= j < k ->
      exists sj, repeated j n s = Some (tt, sj) /\ queues_empty sj = false.
Proof.
  revert n s. induction fuel as [| fuel IH]; intros n s.
  - split; [discriminate |]. intros (k & Hk & _). lia.
  - destruct (body (now n) s) as [[calls s1] |] eqn:Hbody.
    + rewrite (run_step _ _ _ _ _ Hbody).
      destruct (queues_empty s1) eqn:Hempty.
      * split.
        -- intros [= <-]. exists 1. split; [lia |].
           rewrite (iterations_step _ _ _ _ _ Hbody). simpl.
           split; [reflexivity |]. split; [exact Hempty |]. intros j Hj. lia.
        -- intros (k & Hk & Hrep & Hlast & Hbefore).
           destruct k as [| [| k]]; [lia | |].
           ++ rewrite (iterations_step _ _ _ _ _ Hbody) in Hrep.
              by injection Hrep as <-.
           ++ destruct (Hbefore 1) as (sj & Hsj & Hne); [lia |].
              rewrite (iterations_step _ _ _ _ _ Hbody) in Hsj.
              injection Hsj as <-. congruence.
      * rewrite IH. split.
        -- intros (k & Hk & Hrep & Hlast & Hbefore). exists (S k).
           split; [lia |]. rewrite (iterations_step _ _ _ _ _ Hbody).
           split; [exact Hrep |]. split; [exact Hlast |].
           intros [| [| j]] Hj; [lia | |].
           ++ exists s1. by rewrite (iterations_step _ _ _ _ _ Hbody).
           ++ rewrite (iterations_step _ _ _ _ _ Hbody). apply Hbefore. lia.
        -- intros (k & Hk & Hrep & Hlast & Hbefore).
           destruct k as [| k0]; [lia |].
           rewrite (iterations_step _ _ _ _ _ Hbody) in Hrep.
           destruct k0 as [| k'].
           { simpl in Hrep. injection Hrep as <-. congruence. }
           exists (S k').
           split; [lia |]. split; [exact Hrep |]. split; [exact Hlast |].
           intros j Hj. destruct (Hbefore (S j)) as (sj & Hsj & Hne); [lia |].
           rewrite (iterations_step _ _ _ _ _ Hbody) in Hsj. by exists sj.
    + rewrite (run_step_throw _ _ _ Hbody). split; [discriminate |].
      intros (k & Hk & Hrep & _). destruct k as [| k]; [lia |].
      by rewrite (iterations_step_throw _ _ _ Hbody) in Hrep.
Qed.

(** X9: whatever the work methods of the queues, an unfolding of [run]
    exits with the scheduler [s'] exactly when [s'] is the scheduler after
    some number [k >= 1] of iterations, within the fuel, that leaves every
    queue empty while each smaller positive number of iterations leaves a
    process in some queue: the loop always runs its body once, and stops at
    the first iteration that ends with all queues empty. *)
Theorem run_exits_at_first_empty (fuel n : nat) s s' :
  run_loop fuel n s = Some (Exited, s') <->
  exists k,
    1 <= k <= fuel /\
    repeated k n s = Some (tt, s') /\
    queues_empty s' = true /\
    forall j, 1 <= j < k ->
      exists sj, repeated j n s = Some (tt, sj) /\ queues_empty sj = false.
Proof. apply run_exited_iff. Qed.

Lemma run_more_fuel (fuel fuel' n : nat) s s' :
  run_loop fuel n s = Some (Exited, s') -> fuel <= fuel' ->
  run_loop fuel' n s = Some (Exited, s').
Proof.
  rewrite !run_exited_iff. intros (k & Hk & Hrest) Hle.
  exists k. split; [lia | exact Hrest].
Qed.

End Loop.

(** *** The work methods of the queues and the topology *)

Section QueueWorkShape.
Variable executeCPU : Z -> Process -> Process * CPUOutcome.
Variable executeBlocking : Z -> Process -> Process * bool.

Lemma shape_set_runningQueue (i : nat) q q' s :
  runningQueues s !! i = Some q -> Queue_shape q' = Queue_shape q ->
  forall a s', set_runningQueue i q' s = Some (a, s') ->
    Scheduler_shape s' = Scheduler_shape s.
Proof.
  intros Hq Hshape a s' [= _ <-]. unfold Scheduler_shape, all_queues. simpl.
  f_equal. by apply shape_insert_same with q.
Qed.

Lemma Queue_doCPUWork_shape (i : nat) (workTime : Z) :
  preserves Scheduler_shape (Queue_doCPUWork PRIORITY_LEVELS executeCPU i workTime).
Proof.
  intros s a s'. unfold Queue_doCPUWork.
  destruct (workTime =? 0)%Z; [by intros [= _ <-] |].
  intros (queue & s1 & [Hq ->]%runningQueues_at_some & Hrest)%bind_some.
  destruct (Queue_dequeue queue) as [[process queue'] |] eqn:Hdeq; [| discriminate].
  apply Queue_dequeue_some in Hdeq as [_ Hshape].
  apply bind_some in Hrest as ([] & s2 & Hset & Hrest).
  apply (shape_set_runningQueue i queue queue' s Hq Hshape) in Hset.
  rewrite <- Hset.
  destruct (executeCPU (Z.min (quantum queue) workTime) process) as [process' outcome].
  destruct outcome.
  - by apply (preserves_ret Scheduler_shape) in Hrest.
  - by apply shape_handleInterrupt in Hrest.
  - by apply shape_handleInterrupt in Hrest.
Qed.

Lemma Queue_doBlockingWork_shape (workTime : Z) :
  preserves Scheduler_shape
    (Queue_doBlockingWork PRIORITY_LEVELS executeBlocking workTime).
Proof.
  intros s a s'. unfold Queue_doBlockingWork.
  destruct (workTime =? 0)%Z; [by intros [= _ <-] |].
  intros (queue & s1 & [= <- <-] & Hrest)%bind_some.
  destruct (Queue_dequeue (blockingQueue s)) as [[process queue'] |] eqn:Hdeq;
    [| discriminate].
  apply Queue_dequeue_some in Hdeq as [_ Hshape].
  apply bind_some in Hrest as ([] & s2 & [= <-] & Hrest).
  destruct (executeBlocking workTime process) as [process' completed].
  assert (Hint : forall interrupt,
    handleInterrupt PRIORITY_LEVELS queue' process' interrupt
      (mkScheduler (clock s) queue' (runningQueues s)) = Some (a, s') ->
    Scheduler_shape s' = Scheduler_shape s).
  { intros interrupt Hint. apply shape_handleInterrupt in Hint. rewrite Hint.
    unfold Scheduler_shape, all_queues. simpl. by rewrite Hshape. }
  destruct completed; by apply Hint in Hrest.
Qed.

End QueueWorkShape.

(** *** Termination of [run] over the described work methods *)

Lemma sum_list_with_insert {A : Type} (f : A -> nat) (l : list A) (k : nat) (x y : A) :
  l !! k = Some x ->
  sum_list_with f (<[k := y]> l) + f x = sum_list_with f l + f y.
Proof.
  revert k. induction l as [| z l IH]; intros [| k]; simpl; try discriminate.
  - intros [= ->]. lia.
  - intros Hk. specialize (IH k Hk). lia.
Qed.

Lemma sum_list_with_zero {A : Type} (f : A -> nat) (l : list A) :
  sum_list_with f l = 0 <-> forall i x, l !! i = Some x -> f x = 0.
Proof.
  induction l as [| z l IH]; simpl.
  - split; [intros _ i x | reflexivity]. discriminate.
  - split.
    + intros Hsum [| i] x; simpl.
      * intros [= <-]. lia.
      * apply IH. lia.
    + intros Hall. pose proof (Hall 0 z eq_refl).
      assert (sum_list_with f l = 0); [| lia].
      apply IH. intros i x Hi. by apply (Hall (S i)).
Qed.

Lemma scheduler_eta s :
  mkScheduler (clock s) (blockingQueue s) (runningQueues s) = s.
Proof. by destruct s. Qed.

Section Termination.
Variable executeCPU : Z -> Process -> Process * CPUOutcome.
Variable executeBlocking : Z -> Process -> Process * bool.
Variable remaining : Process -> nat.

Hypothesis PRIORITY_LEVELS_pos : 0 < PRIORITY_LEVELS.

(** A CPU service call granted a positive time strictly decreases the time
    the process requires, unless the process completes. *)
Hypothesis executeCPU_progress : forall (n : Z) p,
  (0 < n)%Z -> snd (executeCPU n p) <> Done ->
  remaining (fst (executeCPU n p)) < remaining p.

(** A blocking service call granted a positive time never increases the time
    the process requires, and strictly decreases it unless the blocking
    phase completes. *)
Hypothesis executeBlocking_progress : forall (n : Z) p,
  (0 < n)%Z ->
  remaining (fst (executeBlocking n p)) <= remaining p /\
  (snd (executeBlocking n p) = false ->
   remaining (fst (executeBlocking n p)) < remaining p).

Local Abbreviation doBlockingWork :=
  (Queue_doBlockingWork PRIORITY_LEVELS executeBlocking).
Local Abbreviation doCPUWork := (Queue_doCPUWork PRIORITY_LEVELS executeCPU).
Local Abbreviation variant := (pending remaining).
Local Abbreviation topology := (reference_topology PRIORITY_LEVELS).

Lemma weight_cpu_enqueue p q :
  weight_cpu remaining (Queue_enqueue p q) =
  weight_cpu remaining q + (2 * remaining p + 1).
Proof. unfold weight_cpu. simpl. rewrite sum_list_with_app. simpl. lia. Qed.

Lemma weight_blocking_enqueue p q :
  weight_blocking remaining (Queue_enqueue p q) =
  weight_blocking remaining q + (2 * remaining p + 2).
Proof. unfold weight_blocking. simpl. rewrite sum_list_with_app. simpl. lia. Qed.

Lemma weight_dequeue q :
  Queue_isEmpty q = false ->
  exists p q',
    Queue_dequeue q = Some (p, q') /\ Queue_shape q' = Queue_shape q /\
    weight_cpu remaining q = weight_cpu remaining q' + (2 * remaining p + 1) /\
    weight_blocking remaining q =
      weight_blocking remaining q' + (2 * remaining p + 2).
Proof.
  unfold Queue_isEmpty, Queue_dequeue, weight_cpu, weight_blocking.
  destruct q as [[| p rest] qu pl ty]; simpl; [discriminate |].
  intros _. eexists _, _. split; [reflexivity |]. simpl. repeat split; lia.
Qed.

Lemma weight_empty q :
  Queue_isEmpty q = true ->
  weight_cpu remaining q = 0 /\ weight_blocking remaining q = 0.
Proof.
  intros Hq%Queue_isEmpty_true. unfold weight_cpu, weight_blocking.
  by rewrite Hq.
Qed.

Lemma weight_cpu_zero q : weight_cpu remaining q = 0 -> Queue_isEmpty q = true.
Proof.
  unfold weight_cpu, Queue_isEmpty. destruct (processes q); simpl; [done | lia].
Qed.

Lemma weight_blocking_zero q :
  weight_blocking remaining q = 0 -> Queue_isEmpty q = true.
Proof.
  unfold weight_blocking, Queue_isEmpty. destruct (processes q); simpl; [done | lia].
Qed.

Lemma pending_blockingQueue_enqueue s p :
  exists s',
    blockingQueue_enqueue p s = Some (tt, s') /\
    variant s' = variant s + (2 * remaining p + 2) /\
    clock s' = clock s.
Proof.
  eexists. split; [reflexivity |]. unfold pending. simpl.
  rewrite weight_blocking_enqueue. split; [lia | reflexivity].
Qed.

Lemma pending_runningQueues_enqueue s (i : Z) p :
  length (runningQueues s) = PRIORITY_LEVELS ->
  (0 <= i)%Z -> Z.to_nat i < PRIORITY_LEVELS ->
  exists s',
    runningQueues_enqueue i p s = Some (tt, s') /\
    variant s' = variant s + (2 * remaining p + 1) /\
    clock s' = clock s.
Proof.
  intros Hlen Hi Hlt.
  destruct (lookup_lt_is_Some_2 (runningQueues s) (Z.to_nat i)) as [qt Hqt];
    [lia |].
  eexists. split; [by apply runningQueues_enqueue_some |].
  unfold pending. simpl. split; [| reflexivity].
  pose proof (sum_list_with_insert (weight_cpu remaining) _ _ _
                (Queue_enqueue p qt) Hqt) as Hsum.
  rewrite weight_cpu_enqueue in Hsum. lia.
Qed.

Lemma pending_set_runningQueue s (i : nat) q p q' :
  runningQueues s !! i = Some q ->
  weight_cpu remaining q = weight_cpu remaining q' + (2 * remaining p + 1) ->
  variant (mkScheduler (clock s) (blockingQueue s) (<[i := q']> (runningQueues s)))
    + (2 * remaining p + 1) = variant s.
Proof.
  intros Hq Hweight. unfold pending. simpl.
  pose proof (sum_list_with_insert (weight_cpu remaining) _ _ _ q' Hq). lia.
Qed.

(** A CPU service call on a non-empty queue returns; it leaves the scheduler
    as it is when the work time is zero and strictly decreases the variant
    when the work time is positive. *)
Lemma Queue_doCPUWork_progress (i : nat) (workTime : Z) s q :
  topology s -> (0 <= workTime)%Z ->
  runningQueues s !! i = Some q -> Queue_isEmpty q = false ->
  exists s',
    doCPUWork i workTime s = Some (tt, s') /\
    clock s' = clock s /\
    variant s' <= variant s /\
    ((0 < workTime)%Z -> variant s' < variant s) /\
    (workTime = 0%Z -> s' = s).
Proof.
  intros Htopo Hwork Hq Hne. unfold Queue_doCPUWork.
  destruct (Z.eqb_spec workTime 0) as [-> | Hnz].
  { exists s. repeat split; try done; lia. }
  assert (Hat : runningQueues_at (Z.of_nat i) s = Some (q, s))
    by by apply runningQueues_at_some.
  bind_step Hat.
  destruct (weight_dequeue q Hne) as (p & q' & -> & Hshape & Hweight & _).
  set (s1 := mkScheduler (clock s) (blockingQueue s) (<[i := q']> (runningQueues s))).
  assert (Hset : set_runningQueue i q' s = Some (tt, s1)) by reflexivity.
  bind_step Hset.
  pose proof (pending_set_runningQueue s i q p q' Hq Hweight) as Hpending.
  fold s1 in Hpending.
  assert (Htopo1 : topology s1).
  { apply reference_topology_shape with s; [| exact Htopo].
    by apply (shape_set_runningQueue i q q' s Hq Hshape tt). }
  destruct Htopo as (_ & Hlen & Hrunning).
  pose proof (Hrunning i q Hq) as Hqshape. rewrite <- Hshape in Hqshape.
  pose proof (lookup_lt_Some _ _ _ Hq) as Hilt.
  assert (Hquantum : quantum q = (10 + Z.of_nat i * 20)%Z).
  { specialize (Hrunning i q Hq). unfold Queue_shape in Hrunning. congruence. }
  assert (Hgrant : (0 < Z.min (quantum q) workTime)%Z) by lia.
  pose proof (executeCPU_progress _ p Hgrant) as Hprogress.
  destruct (executeCPU (Z.min (quantum q) workTime) p) as [p' outcome].
  simpl in Hprogress. destruct outcome.
  - exists s1. repeat split; try done; lia.
  - rewrite handleInterrupt_blocked.
    destruct (pending_blockingQueue_enqueue s1 p') as (s2 & -> & Hp2 & Hc2).
    exists s2. specialize (Hprogress ltac:(discriminate)).
    repeat split; try done; lia.
  - assert (Hcpu : queueType q' = CPU_QUEUE).
    { unfold Queue_shape in Hqshape. congruence. }
    assert (Hlevel : priorityLevel q' = Z.of_nat i).
    { unfold Queue_shape in Hqshape. congruence. }
    rewrite (handleInterrupt_lower_cpu _ _ Hcpu), Hlevel.
    destruct Htopo1 as (_ & Hlen1 & _).
    destruct (pending_runningQueues_enqueue s1
                (Z.min (Z.of_nat PRIORITY_LEVELS - 1) (Z.of_nat i + 1)) p' Hlen1)
      as (s2 & -> & Hp2 & Hc2); [lia | lia |].
    exists s2. specialize (Hprogress ltac:(discriminate)).
    repeat split; try done; lia.
Qed.

(** A blocking service call on a non-empty blocking queue returns, with the
    same effect on the variant. *)
Lemma Queue_doBlockingWork_progress (workTime : Z) s :
  topology s -> (0 <= workTime)%Z ->
  Queue_isEmpty (blockingQueue s) = false ->
  exists s',
    doBlockingWork workTime s = Some (tt, s') /\
    clock s' = clock s /\
    variant s' <= variant s /\
    ((0 < workTime)%Z -> variant s' < variant s) /\
    (workTime = 0%Z -> s' = s).
Proof.
  intros Htopo Hwork Hne. unfold Queue_doBlockingWork.
  destruct (Z.eqb_spec workTime 0) as [-> | Hnz].
  { exists s. repeat split; try done; lia. }
  assert (Hget : gets blockingQueue s = Some (blockingQueue s, s)) by reflexivity.
  bind_step Hget.
  destruct (weight_dequeue _ Hne) as (p & q' & -> & Hshape & _ & Hweight).
  set (s1 := mkScheduler (clock s) q' (runningQueues s)).
  assert (Hset : set_blockingQueue q' s = Some (tt, s1)) by reflexivity.
  bind_step Hset.
  assert (Hpending : variant s1 + (2 * remaining p + 2) = variant s).
  { unfold pending, s1. simpl. lia. }
  destruct Htopo as (Hblocking & Hlen & Hrunning).
  assert (Htype : queueType q' = BLOCKING_QUEUE).
  { rewrite <- Hshape in Hblocking. unfold Queue_shape in Hblocking. congruence. }
  assert (Hgrant : (0 < workTime)%Z) by lia.
  destruct (executeBlocking_progress _ p Hgrant) as [Hle Hlt].
  destruct (executeBlocking workTime p) as [p' completed].
  simpl in Hle, Hlt. destruct completed.
  - rewrite handleInterrupt_ready. unfold addNewProcess.
    destruct (pending_runningQueues_enqueue s1 0 p' Hlen)
      as (s2 & -> & Hp2 & Hc2); [lia | lia |].
    exists s2. repeat split; try done; lia.
  - rewrite (handleInterrupt_lower_blocking _ _ Htype).
    destruct (pending_blockingQueue_enqueue s1 p') as (s2 & -> & Hp2 & Hc2).
    exists s2. specialize (Hlt eq_refl). repeat split; try done; lia.
Qed.

Lemma variant_zero s : variant s = 0 <-> no_process s.
Proof.
  unfold pending, no_process. split.
  - intros Hzero.
    assert (Hb : weight_blocking remaining (blockingQueue s) = 0) by lia.
    assert (Hr : sum_list_with (weight_cpu remaining) (runningQueues s) = 0) by lia.
    split.
    + by apply Queue_isEmpty_true, weight_blocking_zero.
    + intros i q Hq. apply Queue_isEmpty_true, weight_cpu_zero.
      by apply (proj1 (sum_list_with_zero _ _) Hr i).
  - intros [Hb Hr].
    apply Queue_isEmpty_true, weight_empty in Hb as [_ ->].
    assert (sum_list_with (weight_cpu remaining) (runningQueues s) = 0); [| lia].
    apply sum_list_with_zero. intros i q Hq.
    by apply weight_empty, Queue_isEmpty_true, Hr with i.
Qed.

Lemma scan_running_total (n i : nat) (workTime : Z) s :
  topology s -> (0 <= workTime)%Z -> i + n <= PRIORITY_LEVELS ->
  exists calls s', scan_running doCPUWork n i workTime s = Some (calls, s').
Proof.
  intros Htopo Hwork. revert i. induction n as [| n IH]; intros i Hin; simpl.
  - by eexists _, _.
  - destruct Htopo as (Hb & Hlen & Hr).
    destruct (lookup_lt_is_Some_2 (runningQueues s) i) as [q Hq]; [lia |].
    assert (Hat : runningQueues_at (Z.of_nat i) s = Some (q, s))
      by by apply runningQueues_at_some.
    bind_step Hat.
    destruct (Queue_isEmpty q) eqn:Hempty; simpl.
    + apply IH. lia.
    + destruct (Queue_doCPUWork_progress i workTime s q) as (s' & Hcall & _);
        try done.
      bind_step Hcall. by eexists _, _.
Qed.

(** The scan returns; it never increases the variant and strictly decreases
    it when the work time is positive and some CPU queue holds a process. *)
Lemma scan_running_progress (workTime : Z) s :
  topology s -> (0 <= workTime)%Z ->
  exists calls s',
    scan_running doCPUWork PRIORITY_LEVELS 0 workTime s = Some (calls, s') /\
    clock s' = clock s /\
    variant s' <= variant s /\
    ((0 < workTime)%Z ->
     sum_list_with (weight_cpu remaining) (runningQueues s) <> 0 ->
     variant s' < variant s) /\
    (workTime = 0%Z -> s' = s).
Proof.
  intros Htopo Hwork.
  destruct (scan_running_total PRIORITY_LEVELS 0 workTime s Htopo Hwork)
    as (calls & s' & Hscan); [lia |].
  exists calls, s'. split; [exact Hscan |].
  apply scan_running_spec in Hscan
    as [(_ & -> & Hall) | (k & q & _ & Hk & Hq & Hne & _ & Hcall)].
  - repeat split; try done. intros _ Hsum. exfalso. apply Hsum.
    apply sum_list_with_zero. intros i q Hq. apply weight_empty.
    apply Hall with i; [| exact Hq].
    destruct Htopo as (_ & Hlen & _). apply lookup_lt_Some in Hq. lia.
  - destruct (Queue_doCPUWork_progress k workTime s q Htopo Hwork Hq Hne)
      as (s2 & Hcall2 & Hclock & Hle & Hlt & Hzero).
    rewrite Hcall in Hcall2. injection Hcall2 as <-.
    repeat split; try done. intros Hpos _. by apply Hlt.
Qed.

(** An iteration returns on a scheduler of the reference topology whose clock
    is not ahead of the reading; it strictly decreases the variant when time
    passed and some queue holds a process, and changes nothing when no time
    passed. *)
Lemma iteration_progress (time : Z) s :
  topology s -> (clock s <= time)%Z ->
  exists calls s',
    iteration PRIORITY_LEVELS doBlockingWork doCPUWork time s = Some (calls, s') /\
    topology s' /\
    clock s' = time /\
    variant s' <= variant s /\
    ((clock s < time)%Z -> variant s <> 0 -> variant s' < variant s) /\
    (time = clock s -> s' = s).
Proof.
  intros Htopo Hclock. unfold iteration.
  set (workTime := (time - clock s)%Z).
  set (s0 := mkScheduler time (blockingQueue s) (runningQueues s)).
  assert (Hgets : gets clock s = Some (clock s, s)) by reflexivity.
  bind_step Hgets.
  assert (Hset : set_clock time s = Some (tt, s0)) by reflexivity.
  bind_step Hset.
  assert (Hblocking : gets blockingQueue s0 = Some (blockingQueue s, s0))
    by reflexivity.
  bind_step Hblocking. fold workTime.
  assert (Hwork : (0 <= workTime)%Z) by (unfold workTime; lia).
  assert (Htopo0 : topology s0).
  { apply reference_topology_shape with s; [reflexivity | exact Htopo]. }
  assert (Hvariant0 : variant s0 = variant s) by reflexivity.
  assert (Hfirst : exists calls1 s1,
    (if negb (Queue_isEmpty (blockingQueue s)) then
       bind (doBlockingWork workTime) (fun _ => ret [BlockingWork workTime])
     else ret []) s0 = Some (calls1, s1) /\
    topology s1 /\ clock s1 = time /\ variant s1 <= variant s /\
    ((0 < workTime)%Z -> Queue_isEmpty (blockingQueue s) = false ->
     variant s1 < variant s) /\
    (Queue_isEmpty (blockingQueue s) = true -> s1 = s0) /\
    (workTime = 0%Z -> s1 = s0)).
  { destruct (Queue_isEmpty (blockingQueue s)) eqn:Hempty; simpl.
    - exists [], s0. split_and!; try done; lia.
    - destruct (Queue_doBlockingWork_progress workTime s0 Htopo0 Hwork Hempty)
        as (s1 & Hcall & Hc1 & Hle & Hlt & Hzero).
      exists [BlockingWork workTime], s1.
      bind_step Hcall. split_and!; try done; try lia.
      apply reference_topology_shape with s0; [| exact Htopo0].
      by apply (Queue_doBlockingWork_shape executeBlocking workTime s0 tt). }
  destruct Hfirst as (calls1 & s1 & Hcall1 & Htopo1 & Hclock1 & Hle1 & Hlt1
                      & Hempty1 & Hzero1).
  bind_step Hcall1.
  destruct (scan_running_progress workTime s1 Htopo1 Hwork)
    as (calls2 & s' & Hscan & Hclock2 & Hle2 & Hlt2 & Hzero2).
  bind_step Hscan.
  exists (calls1 ++ calls2), s'. split; [reflexivity |]. split_and!.
  - apply (reference_topology_shape s1); [| exact Htopo1].
    eapply (shape_scan_running doCPUWork); [| exact Hscan].
    apply Queue_doCPUWork_shape.
  - congruence.
  - lia.
  - intros Hlt Hnz. assert (Hpos : (0 < workTime)%Z) by (unfold workTime; lia).
    destruct (Queue_isEmpty (blockingQueue s)) eqn:Hempty.
    + rewrite (Hempty1 eq_refl) in *.
      apply weight_empty in Hempty as [_ Hwb].
      assert (variant s' < variant s0); [| lia].
      apply Hlt2; [exact Hpos |].
      unfold pending in Hnz. simpl. lia.
    + specialize (Hlt1 Hpos eq_refl). lia.
  - intros ->. assert (Hzero : workTime = 0%Z) by (unfold workTime; lia).
    rewrite (Hzero2 Hzero), (Hzero1 Hzero). apply scheduler_eta.
Qed.

Lemma submit_total (ps : list Process) s :
  topology s ->
  exists s', submit ps s = Some (tt, s') /\ topology s' /\ clock s' = clock s.
Proof.
  revert s. induction ps as [| p ps IH]; intros s Htopo; simpl.
  - by exists s.
  - destruct Htopo as (Hb & Hlen & Hr).
    destruct (pending_runningQueues_enqueue s 0 p Hlen) as (s1 & Hadd & _ & Hclock);
      [lia | lia |].
    fold (addNewProcess p) in Hadd. bind_step Hadd.
    destruct (IH s1) as (s' & Hsubmit & Htopo' & Hclock').
    { apply reference_topology_shape with s; [| by split_and!].
      by apply (shape_addNewProcess p s tt). }
    exists s'. split_and!; try done. congruence.
Qed.

(** The clock: [Date.now()] never runs backwards, and time keeps passing
    between two consecutive readings of the loop. *)
Variable now : nat -> Z.
Hypothesis now_monotone : forall n, (now n <= now (S n))%Z.
Hypothesis now_advances : forall n, exists m, n <= m /\ (now m < now (S m))%Z.

Local Abbreviation run_loop := (run PRIORITY_LEVELS doBlockingWork doCPUWork now).

Lemma run_progress_step (n : nat) s :
  topology s -> (clock s < now n)%Z ->
  (forall s2 n2, variant s2 < variant s -> topology s2 -> (clock s2 <= now n2)%Z ->
     exists fuel s', run_loop fuel n2 s2 = Some (Exited, s')) ->
  exists fuel s', run_loop fuel n s = Some (Exited, s').
Proof.
  intros Htopo Hclock IH.
  destruct (iteration_progress (now n) s Htopo)
    as (calls & s1 & Hbody & Htopo1 & Hclock1 & Hle & Hlt & _); [lia |].
  destruct (queues_empty s1) eqn:Hempty.
  - exists 1, s1. rewrite (run_step _ _ _ _ _ _ _ _ Hbody). by rewrite Hempty.
  - assert (Hnz1 : variant s1 <> 0).
    { rewrite variant_zero, <- queues_empty_true. congruence. }
    destruct (IH s1 (S n)) as (fuel & s' & Hrun); [| done | |].
    + apply Hlt; lia.
    + rewrite Hclock1. apply now_monotone.
    + exists (S fuel), s'. rewrite (run_step _ _ _ _ _ _ _ _ Hbody).
      by rewrite Hempty.
Qed.

Lemma run_wait (d n : nat) s :
  topology s -> (clock s <= now n)%Z -> (now (n + d) < now (S (n + d)))%Z ->
  (forall s2 n2, variant s2 < variant s -> topology s2 -> (clock s2 <= now n2)%Z ->
     exists fuel s', run_loop fuel n2 s2 = Some (Exited, s')) ->
  exists fuel s', run_loop fuel n s = Some (Exited, s').
Proof.
  intros Htopo. revert n. induction d as [| d IHd]; intros n Hclock Hadvance IH.
  - destruct (decide (clock s < now n)%Z) as [Hlt | Hge].
    { by apply run_progress_step. }
    destruct (iteration_progress (now n) s Htopo Hclock)
      as (calls & s1 & Hbody & _ & _ & _ & _ & Hsame).
    rewrite (Hsame ltac:(lia)) in Hbody.
    destruct (queues_empty s) eqn:Hempty.
    + exists 1, s. rewrite (run_step _ _ _ _ _ _ _ _ Hbody). by rewrite Hempty.
    + destruct (run_progress_step (S n) s Htopo) as (fuel & s' & Hrun);
        [rewrite Nat.add_0_r in Hadvance; lia | exact IH |].
      exists (S fuel), s'. rewrite (run_step _ _ _ _ _ _ _ _ Hbody).
      by rewrite Hempty.
  - destruct (decide (clock s < now n)%Z) as [Hlt | Hge].
    { by apply run_progress_step. }
    destruct (iteration_progress (now n) s Htopo Hclock)
      as (calls & s1 & Hbody & _ & _ & _ & _ & Hsame).
    rewrite (Hsame ltac:(lia)) in Hbody.
    destruct (queues_empty s) eqn:Hempty.
    + exists 1, s. rewrite (run_step _ _ _ _ _ _ _ _ Hbody). by rewrite Hempty.
    + destruct (IHd (S n)) as (fuel & s' & Hrun).
      * pose proof (now_monotone n). lia.
      * by replace (S n + d) with (n + S d) by lia.
      * exact IH.
      * exists (S fuel), s'. rewrite (run_step _ _ _ _ _ _ _ _ Hbody).
        by rewrite Hempty.
Qed.

(** From a scheduler of the reference topology whose clock is not ahead of
    the next reading, the loop exits. *)
Lemma run_exits (n : nat) s :
  topology s -> (clock s <= now n)%Z ->
  exists fuel s', run_loop fuel n s = Some (Exited, s').
Proof.
  remember (variant s) as size eqn:Hsize. revert s n Hsize.
  induction size as [size IH] using lt_wf_ind. intros s n -> Htopo Hclock.
  destruct (now_advances n) as (m & Hm & Hadvance).
  apply (run_wait (m - n)); try done.
  - by replace (n + (m - n)) with m by lia.
  - intros s2 n2 Hlt Htopo2 Hclock2. by apply (IH (variant s2) Hlt s2 n2).
Qed.

(** C4, as amended: when every service call granted a positive time strictly
    decreases the time the served process requires, unless it completes the
    process or its blocking phase, and the clock never runs backwards and
    keeps advancing, [run()] called after any sequence of [addNewProcess]
    calls returns; it returns at the end of the first iteration that leaves
    the blocking queue and all the CPU queues empty, and not before. *)
Theorem run_terminates (t0 : Z) (ps : list Process) :
  (t0 <= now 0)%Z ->
  exists s0 k s',
    submit ps (Scheduler_new PRIORITY_LEVELS t0) = Some (tt, s0) /\
    1 <= k /\
    (forall fuel, k <= fuel -> run_loop fuel 0 s0 = Some (Exited, s')) /\
    iterations PRIORITY_LEVELS doBlockingWork doCPUWork now k 0 s0 = Some (tt, s') /\
    no_process s' /\
    forall j, 1 <= j < k ->
      exists sj,
        iterations PRIORITY_LEVELS doBlockingWork doCPUWork now j 0 s0 =
          Some (tt, sj) /\
        ~ no_process sj.
Proof.
  intros Hclock.
  destruct (submit_total ps (Scheduler_new PRIORITY_LEVELS t0))
    as (s0 & Hsubmit & Htopo & Hclock0); [apply reference_topology_new |].
  destruct (run_exits 0 s0 Htopo) as (fuel & s' & Hrun).
  { rewrite Hclock0. exact Hclock. }
  pose proof Hrun as Hexit.
  apply run_exited_iff in Hexit as (k & Hk & Hrep & Hlast & Hbefore).
  exists s0, k, s'. split_and!; try done; try lia.
  - intros fuel' Hfuel. apply run_exited_iff. exists k. split_and!; try done; lia.
  - by apply queues_empty_true.
  - intros j Hj. destruct (Hbefore j Hj) as (sj & Hsj & Hne).
    exists sj. split; [exact Hsj |]. by apply queues_empty_false.
Qed.

End Termination.

(** *** The routing of interrupts: failure and composition *)

Lemma handleInterrupt_route queue p interrupt :
  handleInterrupt PRIORITY_LEVELS queue p interrupt =
  deliver (route PRIORITY_LEVELS queue interrupt) p.
Proof. unfold handleInterrupt, route, deliver. repeat case_decide; reflexivity. Qed.

Lemma runningQueues_enqueue_none s (i : Z) p :
  runningQueues_enqueue i p s = None <->
  (i < 0)%Z \/ (Z.of_nat (length (runningQueues s)) <= i)%Z.
Proof.
  unfold runningQueues_enqueue, array_get.
  destruct (Z.ltb_spec i 0) as [Hneg | Hpos].
  - split; [by left | done].
  - destruct (runningQueues s !! Z.to_nat i) as [q |] eqn:Hq.
    + apply lookup_lt_Some in Hq. split; [discriminate | lia].
    + apply lookup_ge_None in Hq. split; [intros _; lia | done].
Qed.

(** X2: [handleInterrupt] throws in two cases only: on [PROCESS_READY] when
    the scheduler has no CPU queue, and on [LOWER_PRIORITY] from a CPU queue
    when the level [min(PRIORITY_LEVELS - 1, level + 1)] is no index of the
    array of CPU queues. *)
Theorem handleInterrupt_throws_iff s queue p interrupt :
  handleInterrupt PRIORITY_LEVELS queue p interrupt s = None <->
  (interrupt = SchedulerInterrupt.PROCESS_READY /\ runningQueues s = []) \/
  (interrupt = SchedulerInterrupt.LOWER_PRIORITY /\
   queueType queue = CPU_QUEUE /\
   ((Z.min (Z.of_nat PRIORITY_LEVELS - 1) (priorityLevel queue + 1) < 0)%Z \/
    (Z.of_nat (length (runningQueues s)) <=
       Z.min (Z.of_nat PRIORITY_LEVELS - 1) (priorityLevel queue + 1))%Z)).
Proof.
  destruct (decide (interrupt = SchedulerInterrupt.PROCESS_BLOCKED)) as [-> | H1].
  { rewrite handleInterrupt_blocked.
    split; [discriminate | intros [[? _] | [? _]]; discriminate]. }
  destruct (decide (interrupt = SchedulerInterrupt.PROCESS_READY)) as [-> | H2].
  { rewrite handleInterrupt_ready. unfold addNewProcess.
    rewrite runningQueues_enqueue_none. split.
    - intros [Hneg | Hlen]; [lia |]. left. split; [done |].
      destruct (runningQueues s); [done | simpl in Hlen; lia].
    - intros [[_ ->] | [? _]]; [right; simpl; lia | discriminate]. }
  destruct (decide (interrupt = SchedulerInterrupt.LOWER_PRIORITY)) as [-> | H3].
  { destruct (queueType queue) eqn:Htype.
    - rewrite (handleInterrupt_lower_cpu _ _ Htype), runningQueues_enqueue_none.
      split; [intros H; right; by split_and! |].
      intros [[? _] | (_ & _ & H)]; [discriminate | exact H].
    - rewrite (handleInterrupt_lower_blocking _ _ Htype).
      split; [discriminate | intros [[? _] | (_ & ? & _)]; discriminate]. }
  rewrite handleInterrupt_unknown by done.
  split; [discriminate | intros [[? _] | [? _]]; congruence].
Qed.

Lemma deliver_commute s (t1 t2 : Target) p1 p2 :
  t1 <> t2 ->
  bind (deliver t1 p1) (fun _ => deliver t2 p2) s =
  bind (deliver t2 p2) (fun _ => deliver t1 p1) s.
Proof.
  intros Hne.
  destruct t1 as [| i |], t2 as [| j |]; try congruence; try reflexivity;
    unfold bind, deliver, blockingQueue_enqueue, modify, runningQueues_enqueue,
      ret; simpl;
    try (by destruct (array_get (runningQueues s) i));
    try (by destruct (array_get (runningQueues s) j)).
  assert (Hij : i <> j) by congruence. unfold array_get.
  destruct (Z.ltb_spec i 0) as [Hi | Hi], (Z.ltb_spec j 0) as [Hj | Hj];
    try reflexivity.
  - by destruct (runningQueues s !! Z.to_nat j).
  - by destruct (runningQueues s !! Z.to_nat i).
  - assert (Hnat : Z.to_nat i <> Z.to_nat j) by lia.
    destruct (runningQueues s !! Z.to_nat i) as [qi |] eqn:Hqi,
             (runningQueues s !! Z.to_nat j) as [qj |] eqn:Hqj;
      simpl; rewrite ?list_lookup_insert_ne, ?Hqi, ?Hqj by done;
      try reflexivity.
    by rewrite list_insert_insert_ne.
Qed.

(** X6: two interrupts that are routed to different queues commute: handled
    in either order they leave the same scheduler, and if one order throws
    so does the other. *)
Theorem handleInterrupt_commute s q1 p1 i1 q2 p2 i2 :
  route PRIORITY_LEVELS q1 i1 <> route PRIORITY_LEVELS q2 i2 ->
  bind (handleInterrupt PRIORITY_LEVELS q1 p1 i1)
       (fun _ => handleInterrupt PRIORITY_LEVELS q2 p2 i2) s =
  bind (handleInterrupt PRIORITY_LEVELS q2 p2 i2)
       (fun _ => handleInterrupt PRIORITY_LEVELS q1 p1 i1) s.
Proof.
  intros Hne. rewrite !handleInterrupt_route. by apply deliver_commute.
Qed.

(** X7: a sequence of [addNewProcess] calls on a scheduler that has a CPU
    queue of level 0 returns; that queue receives the processes by [enqueue]
    in the order of the calls, and the clock, the blocking queue and every
    other CPU queue are left as they were. *)
Theorem submit_batch s (ps : list Process) q0 :
  runningQueues s !! 0 = Some q0 ->
  submit ps s =
  Some (tt, mkScheduler (clock s) (blockingQueue s)
              (<[0 := foldl (fun q p => Queue_enqueue p q) q0 ps]>
                 (runningQueues s))).
Proof.
  revert s q0. induction ps as [| p ps IH]; intros s q0 Hq0; simpl.
  - rewrite (list_insert_id _ _ _ Hq0). unfold ret. by rewrite scheduler_eta.
  - assert (Hadd : addNewProcess p s =
      Some (tt, mkScheduler (clock s) (blockingQueue s)
                  (<[0 := Queue_enqueue p q0]> (runningQueues s)))).
    { unfold addNewProcess. by apply (runningQueues_enqueue_some s 0 p q0). }
    bind_step Hadd. rewrite (IH _ (Queue_enqueue p q0)); simpl.
    + by rewrite list_insert_insert_eq.
    + apply list_lookup_insert_eq. by apply lookup_lt_Some in Hq0.
Qed.

(** *** [run] on a scheduler without processes *)

Section RunEdge.
Variable doBlockingWork : Z -> M Process unit.
Variable doCPUWork : nat -> Z -> M Process unit.
Variable now : nat -> Z.

Lemma scan_running_all_empty (n i : nat) (workTime : Z) s :
  i + n <= length (runningQueues s) ->
  forallb Queue_isEmpty (runningQueues s) = true ->
  scan_running doCPUWork n i workTime s = Some ([], s).
Proof.
  intros Hlen Hall. revert i Hlen. induction n as [| n IH]; intros i Hlen; simpl.
  - reflexivity.
  - destruct (lookup_lt_is_Some_2 (runningQueues s) i) as [q Hq]; [lia |].
    assert (Hat : runningQueues_at (Z.of_nat i) s = Some (q, s))
      by by apply runningQueues_at_some.
    bind_step Hat.
    assert (Hempty : Queue_isEmpty q = true).
    { apply Queue_isEmpty_true. by apply (proj1 (forallb_isEmpty _) Hall i). }
    rewrite Hempty. simpl. apply IH. lia.
Qed.

(** X4: called on a scheduler whose queues are all empty, [run] still runs
    its loop body once: it makes no service call, sets the clock to the
    reading of [Date.now()] and returns; nothing else changes. *)
Theorem run_on_empty s (fuel n : nat) :
  length (runningQueues s) = PRIORITY_LEVELS ->
  queues_empty s = true ->
  iteration PRIORITY_LEVELS doBlockingWork doCPUWork (now n) s =
    Some ([], mkScheduler (now n) (blockingQueue s) (runningQueues s)) /\
  run PRIORITY_LEVELS doBlockingWork doCPUWork now (S fuel) n s =
    Some (Exited, mkScheduler (now n) (blockingQueue s) (runningQueues s)).
Proof.
  intros Hlen Hempty. pose proof Hempty as Hboth.
  unfold queues_empty in Hboth. apply andb_true_iff in Hboth as [Hrunning Hblocking].
  assert (Hbody :
    iteration PRIORITY_LEVELS doBlockingWork doCPUWork (now n) s =
    Some ([], mkScheduler (now n) (blockingQueue s) (runningQueues s))).
  { unfold iteration, bind, gets, set_clock, modify, ret. simpl.
    rewrite Hblocking. simpl.
    rewrite scan_running_all_empty; simpl; [reflexivity | lia | exact Hrunning]. }
  split; [exact Hbody |].
  rewrite (run_step _ _ _ _ _ _ _ _ Hbody).
  replace (queues_empty (mkScheduler (now n) (blockingQueue s) (runningQueues s)))
    with (queues_empty s) by reflexivity.
  by rewrite Hempty.
Qed.

End RunEdge.

(** *** The clock and the work time *)

Lemma clock_blockingQueue_enqueue p :
  preserves (clock (Process := Process)) (blockingQueue_enqueue p).
Proof. by intros s a s' [= _ <-]. Qed.

Lemma clock_runningQueues_enqueue (i : Z) p :
  preserves (clock (Process := Process)) (runningQueues_enqueue i p).
Proof.
  intros s a s'. unfold runningQueues_enqueue.
  destruct (array_get (runningQueues s) i); [| discriminate]. by intros [= _ <-].
Qed.

Lemma clock_handleInterrupt queue p interrupt :
  preserves (clock (Process := Process))
    (handleInterrupt PRIORITY_LEVELS queue p interrupt).
Proof.
  rewrite handleInterrupt_route.
  destruct (route PRIORITY_LEVELS queue interrupt); simpl;
    auto using clock_blockingQueue_enqueue, clock_runningQueues_enqueue,
      preserves_ret.
Qed.

Lemma clock_runningQueues_at (i : Z) :
  preserves (clock (Process := Process)) (runningQueues_at i).
Proof.
  intros s q s'. unfold runningQueues_at.
  destruct (array_get (runningQueues s) i); [| discriminate]. by intros [= _ <-].
Qed.

Section ClockAccounting.
Variable doBlockingWork : Z -> M Process unit.
Variable doCPUWork : nat -> Z -> M Process unit.
Variable now : nat -> Z.
Hypothesis doBlockingWork_clock :
  forall workTime, preserves clock (doBlockingWork workTime).
Hypothesis doCPUWork_clock :
  forall i workTime, preserves clock (doCPUWork i workTime).

(** An iteration leaves the clock at its reading, and every service call it
    makes is given the time between the clock it found and that reading. *)
Lemma iteration_clock (time : Z) s calls s' :
  iteration PRIORITY_LEVELS doBlockingWork doCPUWork time s = Some (calls, s') ->
  clock s' = time /\
  Forall (fun call => ServiceCall_workTime call = (time - clock s)%Z) calls.
Proof.
  intros Hiter. unfold iteration in Hiter.
  apply bind_some in Hiter as (c & sa & [= <- <-] & Hiter).
  apply bind_some in Hiter as ([] & s0 & [= <-] & Hiter).
  apply bind_some in Hiter as (blocking & sc & [= <- <-] & Hiter).
  apply bind_some in Hiter as (calls1 & s1 & Hblocking & Hiter).
  apply bind_some in Hiter as (calls2 & s2 & Hscan & [= <- <-]).
  simpl in Hblocking.
  assert (Hfirst : clock s1 = time /\
    Forall (fun call => ServiceCall_workTime call = (time - clock s)%Z) calls1).
  { destruct (Queue_isEmpty (blockingQueue s)); simpl in Hblocking.
    - injection Hblocking as <- <-. by split.
    - apply bind_some in Hblocking as ([] & sd & Hwork & [= <- <-]).
      apply doBlockingWork_clock in Hwork. split; [exact Hwork |].
      by repeat constructor. }
  destruct Hfirst as [Hclock1 Hcalls1].
  apply scan_running_spec in Hscan
    as [(-> & -> & _) | (k & q & -> & _ & _ & _ & _ & Hwork)].
  - split; [exact Hclock1 |]. by rewrite app_nil_r.
  - apply doCPUWork_clock in Hwork. split; [congruence |].
    apply Forall_app. split; [exact Hcalls1 |]. by repeat constructor.
Qed.

Lemma iterations_clock (k n : nat) s s' :
  iterations PRIORITY_LEVELS doBlockingWork doCPUWork now (S k) n s = Some (tt, s') ->
  clock s' = now (n + k).
Proof.
  revert n s. induction k as [| k IH]; intros n s; simpl.
  - intros (calls & s1 & Hbody & [= <-])%bind_some.
    apply iteration_clock in Hbody as [-> _]. by rewrite Nat.add_0_r.
  - intros (calls & s1 & Hbody & Hrest)%bind_some.
    apply (IH (S n)) in Hrest. by replace (n + S k) with (S n + k) by lia.
Qed.

(** X5: provided the work methods of the queues leave the clock alone, the
    time handed to the service calls of an iteration after the first is the
    time between the two last readings of [Date.now()], and the iteration
    leaves the clock at the last reading: no time is handed out twice and
    none is lost. *)
Theorem workTime_is_elapsed (k n : nat) s sk calls s' :
  iterations PRIORITY_LEVELS doBlockingWork doCPUWork now (S k) n s = Some (tt, sk) ->
  iteration PRIORITY_LEVELS doBlockingWork doCPUWork (now (n + S k)) sk =
    Some (calls, s') ->
  clock s' = now (n + S k) /\
  Forall (fun call =>
            ServiceCall_workTime call = (now (n + S k) - now (n + k))%Z) calls.
Proof.
  intros Hbefore Hbody. apply iterations_clock in Hbefore.
  apply iteration_clock in Hbody. by rewrite Hbefore in Hbody.
Qed.

End ClockAccounting.

(** *** What holds of every reachable scheduler *)

Lemma runningQueues_enqueue_returns s (i : Z) p :
  (0 <= i)%Z -> Z.to_nat i < length (runningQueues s) ->
  exists s', runningQueues_enqueue i p s = Some (tt, s').
Proof.
  intros Hi Hlt.
  destruct (lookup_lt_is_Some_2 (runningQueues s) (Z.to_nat i) Hlt) as [q Hq].
  eexists. by apply runningQueues_enqueue_some.
Qed.

(** On a scheduler of the reference topology with a CPU queue, an interrupt
    whose source is one of the queues of the scheduler is handled without
    error. *)
Lemma handleInterrupt_returns s queue p interrupt :
  reference_topology PRIORITY_LEVELS s -> 0 < PRIORITY_LEVELS ->
  In queue (all_queues s) ->
  exists s', handleInterrupt PRIORITY_LEVELS queue p interrupt s = Some (tt, s').
Proof.
  intros (Hblocking & Hlen & Hrunning) Hpos Hin.
  rewrite handleInterrupt_route. unfold route.
  repeat case_decide; simpl; try by eexists.
  - apply runningQueues_enqueue_returns; lia.
  - destruct Hin as [<- | Hin].
    { unfold Queue_getQueueType, Queue_shape in *. congruence. }
    apply list_elem_of_In, list_elem_of_lookup in Hin as [k Hk].
    pose proof (lookup_lt_Some _ _ _ Hk) as Hklt.
    apply Hrunning in Hk. unfold Queue_shape in Hk.
    injection Hk as _ Hlevel _. unfold Queue_getPriorityLevel. rewrite Hlevel.
    apply runningQueues_enqueue_returns; lia.
Qed.

Section Robustness.
Variable doBlockingWork : Z -> M Process unit.
Variable doCPUWork : nat -> Z -> M Process unit.
Hypothesis doBlockingWork_shape :
  forall workTime, preserves Scheduler_shape (doBlockingWork workTime).
Hypothesis doCPUWork_shape :
  forall i workTime, preserves Scheduler_shape (doCPUWork i workTime).

Lemma reachable_topology (t0 : Z) s :
  reachable PRIORITY_LEVELS doBlockingWork doCPUWork t0 s ->
  reference_topology PRIORITY_LEVELS s.
Proof.
  intros Hreach.
  apply reference_topology_shape
    with (Scheduler_new (Process := Process) PRIORITY_LEVELS t0).
  - by apply (reachable_shape doBlockingWork doCPUWork).
  - apply reference_topology_new.
Qed.

(** X1: on every reachable scheduler [_getCPUQueue(i)] is [undefined]
    exactly when [i] is negative or at least [PRIORITY_LEVELS], and otherwise
    the CPU queue of priority level [i] and quantum [10 + i * 20];
    [_getBlockingQueue()] is the blocking queue; neither changes the
    scheduler. *)
Theorem accessors_reachable (t0 : Z) s (i : Z) :
  reachable PRIORITY_LEVELS doBlockingWork doCPUWork t0 s ->
  _getBlockingQueue s = Some (blockingQueue s, s) /\
  exists r,
    _getCPUQueue i s = Some (r, s) /\
    (r = None <-> (i < 0)%Z \/ (Z.of_nat PRIORITY_LEVELS <= i)%Z) /\
    forall q, r = Some q ->
      runningQueues s !! Z.to_nat i = Some q /\
      Queue_shape q = ((10 + i * 20)%Z, i, CPU_QUEUE).
Proof.
  intros (Hblocking & Hlen & Hrunning)%reachable_topology.
  split; [reflexivity |].
  exists (array_get (runningQueues s) i). split; [reflexivity |].
  unfold array_get. destruct (Z.ltb_spec i 0) as [Hneg | Hnonneg].
  - split; [split; [by left | done] | discriminate].
  - split.
    + rewrite lookup_ge_None. lia.
    + intros q Hq. split; [exact Hq |].
      apply Hrunning in Hq. by rewrite Z2Nat.id in Hq.
Qed.

(** X3: on every reachable scheduler with a CPU queue, [addNewProcess] and
    [handleInterrupt], for any interrupt whose source is one of the queues of
    the scheduler, return without error. *)
Theorem interrupts_never_throw (t0 : Z) s queue p interrupt :
  0 < PRIORITY_LEVELS ->
  reachable PRIORITY_LEVELS doBlockingWork doCPUWork t0 s ->
  In queue (all_queues s) ->
  (exists s', addNewProcess p s = Some (tt, s')) /\
  (exists s', handleInterrupt PRIORITY_LEVELS queue p interrupt s = Some (tt, s')).
Proof.
  intros Hpos Htopo%reachable_topology Hin. split.
  - destruct Htopo as (_ & Hlen & _). unfold addNewProcess.
    apply runningQueues_enqueue_returns; lia.
  - by apply handleInterrupt_returns.
Qed.

(** The work methods return when they are called as [run] calls them: on a
    non-empty queue of a scheduler of the reference topology. *)
Hypothesis doBlockingWork_returns : forall workTime s,
  reference_topology PRIORITY_LEVELS s ->
  Queue_isEmpty (blockingQueue s) = false ->
  exists s', doBlockingWork workTime s = Some (tt, s').
Hypothesis doCPUWork_returns : forall i workTime s q,
  reference_topology PRIORITY_LEVELS s ->
  runningQueues s !! i = Some q -> Queue_isEmpty q = false ->
  exists s', doCPUWork i workTime s = Some (tt, s').

Lemma scan_running_returns (n i : nat) (workTime : Z) s :
  reference_topology PRIORITY_LEVELS s -> i + n <= PRIORITY_LEVELS ->
  exists calls s', scan_running doCPUWork n i workTime s = Some (calls, s').
Proof.
  intros Htopo. revert i. induction n as [| n IH]; intros i Hin; simpl.
  - by eexists _, _.
  - pose proof Htopo as (_ & Hlen & _).
    destruct (lookup_lt_is_Some_2 (runningQueues s) i) as [q Hq]; [lia |].
    assert (Hat : runningQueues_at (Z.of_nat i) s = Some (q, s))
      by by apply runningQueues_at_some.
    bind_step Hat. destruct (Queue_isEmpty q) eqn:Hempty; simpl.
    + apply IH. lia.
    + destruct (doCPUWork_returns i workTime s q Htopo Hq Hempty) as [s' Hcall].
      bind_step Hcall. by eexists _, _.
Qed.

Lemma iteration_returns (time : Z) s :
  reference_topology PRIORITY_LEVELS s ->
  exists calls s',
    iteration PRIORITY_LEVELS doBlockingWork doCPUWork time s = Some (calls, s') /\
    reference_topology PRIORITY_LEVELS s'.
Proof.
  intros Htopo.
  set (s0 := mkScheduler time (blockingQueue s) (runningQueues s)).
  assert (Htopo0 : reference_topology PRIORITY_LEVELS s0).
  { apply reference_topology_shape with s; [reflexivity | exact Htopo]. }
  assert (Hfirst : exists calls1 s1,
    (if negb (Queue_isEmpty (blockingQueue s)) then
       bind (doBlockingWork (time - clock s))
            (fun _ => ret [BlockingWork (time - clock s)])
     else ret []) s0 = Some (calls1, s1) /\
    reference_topology PRIORITY_LEVELS s1).
  { destruct (Queue_isEmpty (blockingQueue s)) eqn:Hempty; simpl.
    - by exists [], s0.
    - destruct (doBlockingWork_returns (time - clock s)%Z s0 Htopo0 Hempty)
        as [s1 Hcall].
      exists [BlockingWork (time - clock s)], s1. bind_step Hcall.
      split; [reflexivity |].
      apply reference_topology_shape with s0; [| exact Htopo0].
      by apply (doBlockingWork_shape _ _ _ _ Hcall). }
  destruct Hfirst as (calls1 & s1 & Hcall1 & Htopo1).
  destruct (scan_running_returns PRIORITY_LEVELS 0 (time - clock s) s1 Htopo1)
    as (calls2 & s' & Hscan); [lia |].
  exists (calls1 ++ calls2), s'. split.
  - unfold iteration.
    assert (Hgets : gets clock s = Some (clock s, s)) by reflexivity.
    bind_step Hgets.
    assert (Hset : set_clock time s = Some (tt, s0)) by reflexivity.
    bind_step Hset.
    assert (Hblocking : gets blockingQueue s0 = Some (blockingQueue s, s0))
      by reflexivity.
    bind_step Hblocking. bind_step Hcall1. by bind_step Hscan.
  - apply reference_topology_shape with s1; [| exact Htopo1].
    by apply (shape_scan_running doCPUWork doCPUWork_shape _ _ _ _ _ _ Hscan).
Qed.

Lemma run_returns_topology (now : nat -> Z) (fuel n : nat) s :
  reference_topology PRIORITY_LEVELS s ->
  exists status s',
    run PRIORITY_LEVELS doBlockingWork doCPUWork now fuel n s = Some (status, s').
Proof.
  revert n s. induction fuel as [| fuel IH]; intros n s Htopo.
  - by eexists _, _.
  - destruct (iteration_returns (now n) s Htopo) as (calls & s1 & Hbody & Htopo1).
    rewrite (run_step _ _ _ _ _ _ _ _ Hbody).
    destruct (queues_empty s1); [by eexists _, _ | by apply IH].
Qed.

(** X8: [run] raises no error of its own: called on a reachable scheduler it
    finds every queue its scan indexes, so that every unfolding of its loop
    returns, whenever the work methods of the queues return on the non-empty
    queues they are called on and leave the topology as it is. *)
Theorem run_never_throws (t0 : Z) s (now : nat -> Z) (fuel n : nat) :
  reachable PRIORITY_LEVELS doBlockingWork doCPUWork t0 s ->
  exists status s',
    run PRIORITY_LEVELS doBlockingWork doCPUWork now fuel n s = Some (status, s').
Proof.
  intros Htopo%reachable_topology. by apply run_returns_topology.
Qed.

End Robustness.

(** *** The described work methods: clock and return *)

Section QueueWorkReturns.
Variable executeCPU : Z -> Process -> Process * CPUOutcome.
Variable executeBlocking : Z -> Process -> Process * bool.

Lemma Queue_doCPUWork_clock (i : nat) (workTime : Z) :
  preserves clock (Queue_doCPUWork PRIORITY_LEVELS executeCPU i workTime).
Proof.
  unfold Queue_doCPUWork. destruct (workTime =? 0)%Z; [apply preserves_ret |].
  apply preserves_bind; [apply clock_runningQueues_at |]. intros queue.
  destruct (Queue_dequeue queue) as [[process queue'] |]; [| apply preserves_throw].
  apply preserves_bind; [by intros s a s' [= _ <-] |]. intros _.
  destruct (executeCPU (Z.min (quantum queue) workTime) process) as [process' []];
    auto using clock_handleInterrupt, preserves_ret.
Qed.

Lemma Queue_doBlockingWork_clock (workTime : Z) :
  preserves clock (Queue_doBlockingWork PRIORITY_LEVELS executeBlocking workTime).
Proof.
  unfold Queue_doBlockingWork. destruct (workTime =? 0)%Z; [apply preserves_ret |].
  apply preserves_bind; [apply preserves_gets |]. intros queue.
  destruct (Queue_dequeue queue) as [[process queue'] |]; [| apply preserves_throw].
  apply preserves_bind; [by intros s a s' [= _ <-] |]. intros _.
  destruct (executeBlocking workTime process) as [process' []];
    apply clock_handleInterrupt.
Qed.

Lemma Queue_doCPUWork_returns (i : nat) (workTime : Z) s q :
  reference_topology PRIORITY_LEVELS s ->
  runningQueues s !! i = Some q -> Queue_isEmpty q = false ->
  exists s', Queue_doCPUWork PRIORITY_LEVELS executeCPU i workTime s = Some (tt, s').
Proof.
  intros Htopo Hq Hne. unfold Queue_doCPUWork.
  destruct (workTime =? 0)%Z; [by eexists |].
  assert (Hat : runningQueues_at (Z.of_nat i) s = Some (q, s))
    by by apply runningQueues_at_some.
  bind_step Hat.
  destruct (Queue_dequeue q) as [[process q'] |] eqn:Hdeq.
  2: { unfold Queue_dequeue in Hdeq. apply Queue_isEmpty_false in Hne.
       by destruct (processes q). }
  apply Queue_dequeue_some in Hdeq as [_ Hshape].
  set (s1 := mkScheduler (clock s) (blockingQueue s) (<[i := q']> (runningQueues s))).
  assert (Hset : set_runningQueue i q' s = Some (tt, s1)) by reflexivity.
  bind_step Hset.
  assert (Htopo1 : reference_topology PRIORITY_LEVELS s1).
  { apply reference_topology_shape with s; [| exact Htopo].
    by apply (shape_set_runningQueue i q q' s Hq Hshape tt). }
  assert (Hin : In q' (all_queues s1)).
  { right. apply list_elem_of_In, list_elem_of_lookup. exists i. simpl.
    apply list_lookup_insert_eq. by apply lookup_lt_Some in Hq. }
  assert (Hpos : 0 < PRIORITY_LEVELS).
  { destruct Htopo as (_ & Hlen & _). apply lookup_lt_Some in Hq. lia. }
  destruct (executeCPU (Z.min (quantum q) workTime) process) as [process' []];
    [by eexists | |]; by apply handleInterrupt_returns.
Qed.

Lemma Queue_doBlockingWork_returns (workTime : Z) s :
  0 < PRIORITY_LEVELS ->
  reference_topology PRIORITY_LEVELS s ->
  Queue_isEmpty (blockingQueue s) = false ->
  exists s',
    Queue_doBlockingWork PRIORITY_LEVELS executeBlocking workTime s = Some (tt, s').
Proof.
  intros Hpos Htopo Hne. unfold Queue_doBlockingWork.
  destruct (workTime =? 0)%Z; [by eexists |].
  assert (Hget : gets blockingQueue s = Some (blockingQueue s, s)) by reflexivity.
  bind_step Hget.
  destruct (Queue_dequeue (blockingQueue s)) as [[process q'] |] eqn:Hdeq.
  2: { unfold Queue_dequeue in Hdeq. apply Queue_isEmpty_false in Hne.
       by destruct (processes (blockingQueue s)). }
  apply Queue_dequeue_some in Hdeq as [_ Hshape].
  set (s1 := mkScheduler (clock s) q' (runningQueues s)).
  assert (Hset : set_blockingQueue q' s = Some (tt, s1)) by reflexivity.
  bind_step Hset.
  assert (Htopo1 : reference_topology PRIORITY_LEVELS s1).
  { apply reference_topology_shape with s; [| exact Htopo].
    unfold Scheduler_shape, all_queues, s1. simpl. by rewrite Hshape. }
  assert (Hin : In q' (all_queues s1)) by by left.
  destruct (executeBlocking workTime process) as [process' []];
    by apply handleInterrupt_returns.
Qed.

End QueueWorkReturns.

End Properties.

(** ** The statements on the sample configuration *)

Lemma Job_executeCPU_progress (n : Z) (j : Job) :
  (0 < n)%Z -> snd (Job_executeCPU n j) <> Done ->
  Job_remaining (fst (Job_executeCPU n j)) < Job_remaining j.
Proof.
  unfold Job_executeCPU, Job_remaining. intros Hn.
  destruct (Z.leb_spec (cpuTime j) 0); simpl; [congruence |].
  destruct (Z.leb_spec (cpuTime j) n); simpl; intros _; lia.
Qed.

Lemma Job_executeBlocking_progress (n : Z) (j : Job) :
  (0 < n)%Z ->
  Job_remaining (fst (Job_executeBlocking n j)) <= Job_remaining j /\
  (snd (Job_executeBlocking n j) = false ->
   Job_remaining (fst (Job_executeBlocking n j)) < Job_remaining j).
Proof.
  unfold Job_executeBlocking, Job_remaining. intros Hn.
  destruct (Z.leb_spec (blockingTime j) n); simpl; split; try lia; congruence.
Qed.

Lemma sample_clock_monotone (n : nat) : (sample_clock n <= sample_clock (S n))%Z.
Proof. unfold sample_clock. lia. Qed.

Lemma sample_clock_advances (n : nat) :
  exists m, n <= m /\ (sample_clock m < sample_clock (S m))%Z.
Proof. exists n. unfold sample_clock. split; lia. Qed.

Lemma sample_loaded_reachable :
  reachable 3 Job_doBlockingWork Job_doCPUWork 0 sample_loaded.
Proof.
  apply reachable_addNewProcess with (s := Scheduler_new 3 0) (process := mkJob 25 0).
  - apply reachable_new.
  - reflexivity.
Qed.

Lemma sample_demoted_reachable :
  reachable 3 Job_doBlockingWork Job_doCPUWork 0 sample_demoted.
Proof.
  apply reachable_run
    with (s := sample_loaded) (now := sample_clock) (fuel := 1) (n := 0)
         (status := OutOfFuel).
  - apply sample_loaded_reachable.
  - reflexivity.
Qed.

(** A job of CPU burst 25 runs 10 units at level 0, is demoted to level 1,
    runs its remaining 15 units there and completes: the loop exits after two
    ticks. *)
Example scenario_demotion :
  run 3 Job_doBlockingWork Job_doCPUWork sample_clock 1 0 sample_loaded =
    Some (OutOfFuel, sample_demoted) /\
  exists s',
    run 3 Job_doBlockingWork Job_doCPUWork sample_clock 2 0 sample_loaded =
      Some (Exited, s') /\
    queues_empty s' = true.
Proof. split; [reflexivity |]. eexists. split; reflexivity. Qed.

(** A job whose blocking phase completes re-enters the CPU queue of level 0. *)
Example scenario_unblock :
  Job_doBlockingWork 30 sample_blocked =
  Some (tt, mkScheduler 0 (Queue_new 50 0 BLOCKING_QUEUE)
              [ Queue_enqueue (mkJob 0 0) (Queue_new 10 0 CPU_QUEUE);
                Queue_enqueue (mkJob 15 0) (Queue_new 30 1 CPU_QUEUE);
                Queue_new 50 2 CPU_QUEUE ]).
Proof. reflexivity. Qed.

(** With a clock that stands still every tick has a zero work time: the
    loop makes no progress and never exits, although every service call that
    is granted time decreases the time the job requires. *)
Lemma frozen_clock_never_exits (fuel n : nat) :
  run 3 Job_doBlockingWork Job_doCPUWork (fun _ => 0%Z) fuel n sample_loaded =
  Some (OutOfFuel, sample_loaded).
Proof.
  revert n. induction fuel as [| fuel IH]; intros n; [reflexivity |].
  rewrite (run_step 3 Job_doBlockingWork Job_doCPUWork (fun _ => 0%Z) fuel n
             sample_loaded [CPUWork 0 0] sample_loaded eq_refl).
  simpl. apply IH.
Qed.

Lemma iteration_service_order_witness :
  iteration 3 Job_doBlockingWork Job_doCPUWork 30 sample_blocked =
    Some ([BlockingWork 30; CPUWork 0 30], sample_unblocked) /\
  exists s1 calls1 calls2,
    [BlockingWork 30; CPUWork 0 30] = calls1 ++ calls2 /\
    (Queue_isEmpty (blockingQueue sample_blocked) = false ->
       calls1 = [BlockingWork (30 - clock sample_blocked)] /\
       Job_doBlockingWork (30 - clock sample_blocked)
         (mkScheduler 30 (blockingQueue sample_blocked)
            (runningQueues sample_blocked)) = Some (tt, s1)) /\
    (Queue_isEmpty (blockingQueue sample_blocked) = true ->
       calls1 = [] /\
       s1 = mkScheduler 30 (blockingQueue sample_blocked)
              (runningQueues sample_blocked)) /\
    ((calls2 = [] /\ sample_unblocked = s1 /\
      forall j q, j < 3 -> runningQueues s1 !! j = Some q ->
        Queue_isEmpty q = true) \/
     (exists k q,
        calls2 = [CPUWork k (30 - clock sample_blocked)] /\ k < 3 /\
        runningQueues s1 !! k = Some q /\ Queue_isEmpty q = false /\
        (forall j qj, j < k -> runningQueues s1 !! j = Some qj ->
           Queue_isEmpty qj = true) /\
        Job_doCPUWork k (30 - clock sample_blocked) s1 = Some (tt, sample_unblocked))).
Proof.
  split; [reflexivity |].
  apply (iteration_service_order 3 Job_doBlockingWork Job_doCPUWork 30
           sample_blocked [BlockingWork 30; CPUWork 0 30] sample_unblocked).
  reflexivity.
Defined.

Lemma handleInterrupt_lower_priority_witness :
  0 < 3 /\ length (runningQueues sample_loaded) = 3 /\
  (0 <= priorityLevel (Queue_new (Process := Job) 30 1 CPU_QUEUE))%Z /\
  handleInterrupt 3 (Queue_new 30 1 CPU_QUEUE) (mkJob 7 0)
    SchedulerInterrupt.LOWER_PRIORITY sample_loaded =
  Some (tt, mkScheduler 0 (Queue_new 50 0 BLOCKING_QUEUE)
              [ Queue_enqueue (mkJob 25 0) (Queue_new 10 0 CPU_QUEUE);
                Queue_new 30 1 CPU_QUEUE;
                Queue_enqueue (mkJob 7 0) (Queue_new 50 2 CPU_QUEUE) ]).
Proof.
  split; [lia |]. split; [reflexivity |]. split; [simpl; lia |].
  destruct (handleInterrupt_lower_priority 3 sample_loaded
              (Queue_new 30 1 CPU_QUEUE) (mkJob 7 0))
    as [Hcpu _]; [lia | reflexivity | simpl; lia |].
  destruct (Hcpu eq_refl) as (qt & Hqt & Hcall & _).
  injection Hqt as <-. exact Hcall.
Defined.

Lemma handleInterrupt_process_ready_witness :
  0 < 3 /\ length (runningQueues sample_demoted) = 3 /\
  exists q0,
    runningQueues sample_demoted !! 0 = Some q0 /\
    handleInterrupt 3 (Queue_new 50 0 BLOCKING_QUEUE) (mkJob 7 0)
      SchedulerInterrupt.PROCESS_READY sample_demoted =
    Some (tt, mkScheduler (clock sample_demoted) (blockingQueue sample_demoted)
                (<[0 := Queue_enqueue (mkJob 7 0) q0]> (runningQueues sample_demoted))).
Proof.
  split; [lia |]. split; [reflexivity |].
  apply (handleInterrupt_process_ready 3 sample_demoted
           (Queue_new 50 0 BLOCKING_QUEUE) (mkJob 7 0)); [lia | reflexivity].
Defined.

Lemma addNewProcess_level0_witness :
  0 < 3 /\ length (runningQueues sample_loaded) = 3 /\
  exists q0 s',
    runningQueues sample_loaded !! 0 = Some q0 /\
    addNewProcess (mkJob 7 0) sample_loaded = Some (tt, s') /\
    runningQueues s' !! 0 = Some (Queue_enqueue (mkJob 7 0) q0) /\
    processes (Queue_enqueue (mkJob 7 0) q0) = processes q0 ++ [mkJob 7 0] /\
    blockingQueue s' = blockingQueue sample_loaded /\
    clock s' = clock sample_loaded /\
    length (runningQueues s') = length (runningQueues sample_loaded) /\
    forall i, 1 <= i -> runningQueues s' !! i = runningQueues sample_loaded !! i.
Proof.
  split; [lia |]. split; [reflexivity |].
  apply (addNewProcess_level0 3 sample_loaded (mkJob 7 0)); [lia | reflexivity].
Defined.

Lemma handleInterrupt_unknown_noop_witness :
  handleInterrupt 3 (Queue_new 10 0 CPU_QUEUE) (mkJob 7 0) "TIMER_TICK"
    sample_loaded = Some (tt, sample_loaded).
Proof.
  apply (handleInterrupt_unknown_noop 3 sample_loaded (Queue_new 10 0 CPU_QUEUE)
           (mkJob 7 0) "TIMER_TICK"); discriminate.
Defined.

Lemma handleInterrupt_one_target_witness :
  0 < 3 /\ length (runningQueues sample_loaded) = 3 /\
  exists s' k q,
    handleInterrupt 3 (Queue_new 10 0 CPU_QUEUE) (mkJob 7 0)
      SchedulerInterrupt.LOWER_PRIORITY sample_loaded = Some (tt, s') /\
    all_queues sample_loaded !! k = Some q /\
    all_queues s' = <[k := Queue_enqueue (mkJob 7 0) q]> (all_queues sample_loaded) /\
    processes (Queue_enqueue (mkJob 7 0) q) = processes q ++ [mkJob 7 0] /\
    (forall j, j <> k -> all_queues s' !! j = all_queues sample_loaded !! j) /\
    clock s' = clock sample_loaded.
Proof.
  split; [lia |]. split; [reflexivity |].
  apply (handleInterrupt_one_target 3 sample_loaded (Queue_new 10 0 CPU_QUEUE)
           (mkJob 7 0) SchedulerInterrupt.LOWER_PRIORITY);
    [lia | reflexivity | intros _ _; simpl; lia | by right; right].
Defined.

Lemma topology_fixed_witness :
  reachable 3 Job_doBlockingWork Job_doCPUWork 0 sample_demoted /\
  reference_topology 3 (Scheduler_new (Process := Job) 3 0) /\
  reference_topology 3 sample_demoted /\
  Scheduler_shape sample_demoted =
    Scheduler_shape (Scheduler_new (Process := Job) 3 0) /\
  (forall i j qi qj, i < j ->
     runningQueues sample_demoted !! i = Some qi ->
     runningQueues sample_demoted !! j = Some qj ->
     (quantum qi < quantum qj)%Z).
Proof.
  split; [apply sample_demoted_reachable |].
  apply (topology_fixed 3 Job_doBlockingWork Job_doCPUWork
           (Queue_doBlockingWork_shape 3 Job_executeBlocking)
           (Queue_doCPUWork_shape 3 Job_executeCPU)
           0 sample_demoted sample_demoted_reachable).
Defined.

Lemma run_terminates_witness :
  (0 <= sample_clock 0)%Z /\
  exists s0 k s',
    submit [mkJob 25 0; mkJob 5 20] (Scheduler_new 3 0) = Some (tt, s0) /\
    1 <= k /\
    (forall fuel, k <= fuel ->
       run 3 Job_doBlockingWork Job_doCPUWork sample_clock fuel 0 s0 =
         Some (Exited, s')) /\
    iterations 3 Job_doBlockingWork Job_doCPUWork sample_clock k 0 s0 =
      Some (tt, s') /\
    no_process s' /\
    forall j, 1 <= j < k ->
      exists sj,
        iterations 3 Job_doBlockingWork Job_doCPUWork sample_clock j 0 s0 =
          Some (tt, sj) /\
        ~ no_process sj.
Proof.
  split; [unfold sample_clock; lia |].
  apply (run_terminates 3 Job_executeCPU Job_executeBlocking Job_remaining
           ltac:(lia) Job_executeCPU_progress Job_executeBlocking_progress
           sample_clock sample_clock_monotone sample_clock_advances
           0 [mkJob 25 0; mkJob 5 20]).
  unfold sample_clock. lia.
Defined.

(** C4, as the specification words it, fails: a job of CPU burst 25 is
    submitted and the first clock reading of [run] falls in the millisecond
    of the construction, so that the first service call is granted no time
    and leaves the required time at 25; the loop still returns, after the
    ticks of 10 and 30 that follow. *)
Lemma terminates_iff_service_decreases_fails :
  ~ terminates_iff_service_decreases 3 Job_remaining
      Job_doBlockingWork Job_doCPUWork stalled_clock sample_loaded.
Proof.
  intros [Honly_if _].
  assert (Hterminates :
    terminates 3 Job_doBlockingWork Job_doCPUWork stalled_clock sample_loaded).
  { exists 3. eexists. reflexivity. }
  specialize (Honly_if Hterminates 0 sample_loaded eq_refl
                [CPUWork 0 0] sample_loaded eq_refl ltac:(discriminate)).
  vm_compute in Honly_if. lia.
Qed.

(** ** The further properties on the sample configuration *)

Lemma accessors_reachable_witness :
  reachable 3 Job_doBlockingWork Job_doCPUWork 0 sample_demoted /\
  _getBlockingQueue sample_demoted = Some (blockingQueue sample_demoted, sample_demoted) /\
  exists r,
    _getCPUQueue 1 sample_demoted = Some (r, sample_demoted) /\
    (r = None <-> (1 < 0)%Z \/ (Z.of_nat 3 <= 1)%Z) /\
    forall q, r = Some q ->
      runningQueues sample_demoted !! Z.to_nat 1 = Some q /\
      Queue_shape q = ((10 + 1 * 20)%Z, 1%Z, CPU_QUEUE).
Proof.
  split; [apply sample_demoted_reachable |].
  apply (accessors_reachable 3 Job_doBlockingWork Job_doCPUWork
           (Queue_doBlockingWork_shape 3 Job_executeBlocking)
           (Queue_doCPUWork_shape 3 Job_executeCPU)
           0 sample_demoted 1 sample_demoted_reachable).
Defined.

Lemma interrupts_never_throw_witness :
  0 < 3 /\
  reachable 3 Job_doBlockingWork Job_doCPUWork 0 sample_demoted /\
  In (Queue_enqueue (mkJob 15 0) (Queue_new 30 1 CPU_QUEUE))
     (all_queues sample_demoted) /\
  (exists s', addNewProcess (mkJob 7 0) sample_demoted = Some (tt, s')) /\
  (exists s',
     handleInterrupt 3 (Queue_enqueue (mkJob 15 0) (Queue_new 30 1 CPU_QUEUE))
       (mkJob 7 0) SchedulerInterrupt.LOWER_PRIORITY sample_demoted = Some (tt, s')).
Proof.
  split; [lia |]. split; [apply sample_demoted_reachable |].
  split; [right; right; left; reflexivity |].
  apply (interrupts_never_throw 3 Job_doBlockingWork Job_doCPUWork
           (Queue_doBlockingWork_shape 3 Job_executeBlocking)
           (Queue_doCPUWork_shape 3 Job_executeCPU)
           0 sample_demoted (Queue_enqueue (mkJob 15 0) (Queue_new 30 1 CPU_QUEUE))
           (mkJob 7 0) SchedulerInterrupt.LOWER_PRIORITY);
    [lia | apply sample_demoted_reachable | right; right; left; reflexivity].
Defined.

Lemma run_on_empty_witness :
  length (runningQueues sample_scheduler) = 3 /\
  queues_empty sample_scheduler = true /\
  iteration 3 Job_doBlockingWork Job_doCPUWork (sample_clock 0) sample_scheduler =
    Some ([], mkScheduler (sample_clock 0) (blockingQueue sample_scheduler)
                (runningQueues sample_scheduler)) /\
  run 3 Job_doBlockingWork Job_doCPUWork sample_clock 1 0 sample_scheduler =
    Some (Exited, mkScheduler (sample_clock 0) (blockingQueue sample_scheduler)
                    (runningQueues sample_scheduler)).
Proof.
  split; [reflexivity |]. split; [reflexivity |].
  apply (run_on_empty 3 Job_doBlockingWork Job_doCPUWork sample_clock
           sample_scheduler 0 0); reflexivity.
Defined.

Lemma workTime_is_elapsed_witness :
  iterations 3 Job_doBlockingWork Job_doCPUWork sample_clock 1 0 sample_loaded =
    Some (tt, sample_demoted) /\
  iteration 3 Job_doBlockingWork Job_doCPUWork (sample_clock (0 + 1)) sample_demoted =
    Some ([CPUWork 1 30], sample_done) /\
  clock sample_done = sample_clock (0 + 1) /\
  Forall (fun call =>
            ServiceCall_workTime call = (sample_clock (0 + 1) - sample_clock (0 + 0))%Z)
         [CPUWork 1 30].
Proof.
  split; [reflexivity |]. split; [reflexivity |].
  apply (workTime_is_elapsed 3 Job_doBlockingWork Job_doCPUWork sample_clock
           (Queue_doBlockingWork_clock 3 Job_executeBlocking)
           (Queue_doCPUWork_clock 3 Job_executeCPU)
           0 0 sample_loaded sample_demoted [CPUWork 1 30] sample_done);
    reflexivity.
Defined.

Lemma handleInterrupt_commute_witness :
  route 3 (Queue_new (Process := Job) 10 0 CPU_QUEUE)
    SchedulerInterrupt.PROCESS_BLOCKED <>
  route 3 (Queue_new (Process := Job) 50 0 BLOCKING_QUEUE)
    SchedulerInterrupt.PROCESS_READY /\
  bind (handleInterrupt 3 (Queue_new 10 0 CPU_QUEUE) (mkJob 0 20)
          SchedulerInterrupt.PROCESS_BLOCKED)
       (fun _ => handleInterrupt 3 (Queue_new 50 0 BLOCKING_QUEUE) (mkJob 7 0)
                   SchedulerInterrupt.PROCESS_READY) sample_loaded =
  bind (handleInterrupt 3 (Queue_new 50 0 BLOCKING_QUEUE) (mkJob 7 0)
          SchedulerInterrupt.PROCESS_READY)
       (fun _ => handleInterrupt 3 (Queue_new 10 0 CPU_QUEUE) (mkJob 0 20)
                   SchedulerInterrupt.PROCESS_BLOCKED) sample_loaded.
Proof.
  split; [discriminate |].
  apply (handleInterrupt_commute 3 sample_loaded
           (Queue_new 10 0 CPU_QUEUE) (mkJob 0 20) SchedulerInterrupt.PROCESS_BLOCKED
           (Queue_new 50 0 BLOCKING_QUEUE) (mkJob 7 0) SchedulerInterrupt.PROCESS_READY).
  discriminate.
Defined.

Lemma submit_batch_witness :
  runningQueues sample_scheduler !! 0 = Some (Queue_new 10 0 CPU_QUEUE) /\
  submit [mkJob 25 0; mkJob 5 20] sample_scheduler =
  Some (tt, mkScheduler (clock sample_scheduler) (blockingQueue sample_scheduler)
              (<[0 := foldl (fun q p => Queue_enqueue p q) (Queue_new 10 0 CPU_QUEUE)
                        [mkJob 25 0; mkJob 5 20]]>
                 (runningQueues sample_scheduler))).
Proof.
  split; [reflexivity |].
  apply (submit_batch sample_scheduler [mkJob 25 0; mkJob 5 20]
           (Queue_new 10 0 CPU_QUEUE)).
  reflexivity.
Defined.

Lemma run_never_throws_witness :
  reachable 3 Job_doBlockingWork Job_doCPUWork 0 sample_demoted /\
  exists status s',
    run 3 Job_doBlockingWork Job_doCPUWork sample_clock 4 1 sample_demoted =
    Some (status, s').
Proof.
  split; [apply sample_demoted_reachable |].
  apply (run_never_throws 3 Job_doBlockingWork Job_doCPUWork
           (Queue_doBlockingWork_shape 3 Job_executeBlocking)
           (Queue_doCPUWork_shape 3 Job_executeCPU)
           (fun workTime s =>
              Queue_doBlockingWork_returns 3 Job_executeBlocking workTime s
                ltac:(lia))
           (Queue_doCPUWork_returns 3 Job_executeCPU)
           0 sample_demoted sample_clock 4 1 sample_demoted_reachable).
Defined.
